(** * Atomic conditional updates: the blog-views and game-shop workers

    A shallow embedding of the two FastAPI / Tortoise ORM workers of
    [001-prevent-race-conditions]:

    - [01-blog-views/worker.py]: model [Post], handlers [get_post] and
      [view_post], start-up hook [lifespan];
    - [02-game-shop/worker.py]: model [Player], handlers [get_info] and
      [upgrade_level], start-up hook [lifespan], constant [COST].

    The handlers are coroutines: every [await] on the ORM is one statement sent
    to the store.  A handler is therefore a tree of statements ([prog]); it is
    run to completion by [run], and several of them are interleaved statement
    by statement by [run_sched]. *)

From Stdlib Require Import ZArith Lia.
From stdpp Require Import base option list strings gmap fin_maps.

Local Open Scope Z_scope.

(** ** Values, exceptions, results *)

(** What a column holds and what a JSON response carries: the two models only
    have integer and text columns. *)
Inductive value :=
| VInt (n : Z)
| VStr (s : string).

#[global] Instance value_eq_dec : EqDecision value.
Proof. solve_decision. Defined.

(** The exceptions the ORM calls of the two workers can raise.
    [FieldError] carries the offending keyword. [NumericValueOutOfRange] is the
    store's error 22003, raised when an integer column would leave its type. *)
Inductive exn :=
| DoesNotExist
| MultipleObjectsReturned
| IntegrityError
| FieldError (param : string)
| OperationalError
| NumericValueOutOfRange.

Inductive result (A : Type) :=
| Return (a : A)
| Raise (e : exn).
Arguments Return {A} a.
Arguments Raise {A} e.

(** A JSON object, as the handlers build it with a dict display. *)
Abbreviation response := (list (string * value)).

(** ** The ORM layer *)

Module Orm.

(** [fields.IntField] is a 32-bit signed column, [fields.BigIntField] a 64-bit
    signed one. *)
Inductive field_type := IntField | BigIntField | CharField | TextField.

Definition in_range (ty : field_type) (n : Z) : bool :=
  match ty with
  | IntField => (- 2 ^ 31 <=? n) && (n <? 2 ^ 31)
  | BigIntField => (- 2 ^ 63 <=? n) && (n <? 2 ^ 63)
  | CharField | TextField => false
  end.
Arguments in_range : simpl never.

(** [class ...(Model)]: the declared columns in order, with the primary key
    first.  A table maps the primary key to the remaining columns, so a row
    is addressed as a pair of its key and its record. *)
Class Model (R : Type) := {
  fields_map : list (string * field_type);
  pk_name : string;
  get_field : string → Z * R → option value;
  set_field : string → Z → R → R
}.

Fixpoint assoc {A} (key : string) (l : list (string * A)) : option A :=
  match l with
  | [] => None
  | (k, a) :: l' => if String.eqb key k then Some a else assoc key l'
  end.

(** *** Filter keywords

    For every field [f] the ORM registers the filter keys [f], [f__not],
    [f__gte], [f__lte], [f__gt], [f__lt] (the scalar look-ups; field name and
    look-up are joined by a double underscore).  A keyword of [filter] or
    [get] that is not a registered key raises
    [FieldError("Unknown filter param ...")] when the query is awaited. *)
Inductive lookup := Exact | Not | Gte | Lte | Gt | Lt.

Definition lookup_suffixes : list (string * lookup) :=
  [(""%string, Exact); ("__not"%string, Not); ("__gte"%string, Gte);
   ("__lte"%string, Lte); ("__gt"%string, Gt); ("__lt"%string, Lt)].

Definition filters_for_field (f : string) : list (string * (string * lookup)) :=
  (λ sl, (f +:+ sl.1, (f, sl.2))) <$> lookup_suffixes.

Definition filters R `{Model R} : list (string * (string * lookup)) :=
  fields_map ≫= (λ ft, filters_for_field ft.1).

Definition get_filter R `{Model R} (key : string) : option (string * lookup) :=
  assoc key (filters R).

Abbreviation kwargs := (list (string * value)).

Record criterion := Criterion {
  crit_field : string;
  crit_lookup : lookup;
  crit_value : value
}.

Fixpoint resolve_filters R `{Model R} (kw : kwargs) : result (list criterion) :=
  match kw with
  | [] => Return []
  | (key, v) :: kw' =>
      match get_filter R key with
      | None => Raise (FieldError key)
      | Some (f, op) =>
          match resolve_filters R kw' with
          | Raise e => Raise e
          | Return cs => Return (Criterion f op v :: cs)
          end
      end
  end.

(** The stored value [w] against the filter value [v].  Values of different
    kinds do not match (the handlers compare integer columns with integers). *)
Definition compare_values (op : lookup) (w v : value) : bool :=
  match op, w, v with
  | Exact, _, _ => bool_decide (w = v)
  | Not, _, _ => negb (bool_decide (w = v))
  | Gte, VInt a, VInt b => b <=? a
  | Lte, VInt a, VInt b => a <=? b
  | Gt, VInt a, VInt b => b <? a
  | Lt, VInt a, VInt b => a <? b
  | Gte, VStr a, VStr b => String.leb b a
  | Lte, VStr a, VStr b => String.leb a b
  | Gt, VStr a, VStr b => String.ltb b a
  | Lt, VStr a, VStr b => String.ltb a b
  | _, _, _ => false
  end.

Definition holds {R} `{Model R} (c : criterion) (kr : Z * R) : bool :=
  match get_field (crit_field c) kr with
  | Some w => compare_values (crit_lookup c) w (crit_value c)
  | None => false
  end.

(** The WHERE clause: the conjunction of the criteria. *)
Definition matches {R} `{Model R} (cs : list criterion) (kr : Z * R) : bool :=
  forallb (λ c, holds c kr) cs.

(** *** Update expressions: [F("col") + n], [F("col") - n] *)
Inductive expr :=
| F (name : string)
| Const (n : Z)
| Plus (a b : expr)
| Minus (a b : expr).

(** An expression is evaluated by the store on the row as it is when the
    statement runs. *)
Fixpoint eval_expr {R} `{Model R} (e : expr) (kr : Z * R) : result Z :=
  match e with
  | F f =>
      match get_field f kr with
      | Some (VInt n) => Return n
      | Some (VStr _) => Raise OperationalError
      | None => Raise (FieldError f)
      end
  | Const n => Return n
  | Plus a b =>
      match eval_expr a kr, eval_expr b kr with
      | Return x, Return y => Return (x + y)
      | Raise e, _ => Raise e
      | _, Raise e => Raise e
      end
  | Minus a b =>
      match eval_expr a kr, eval_expr b kr with
      | Return x, Return y => Return (x - y)
      | Raise e, _ => Raise e
      | _, Raise e => Raise e
      end
  end.

Record assignment := Assignment {
  asg_field : string;
  asg_type : field_type;
  asg_expr : expr
}.

(** The keywords of [update]: an unknown field raises [FieldError], the
    primary key cannot be updated. *)
Fixpoint resolve_update R `{Model R} (kw : list (string * expr)) : result (list assignment) :=
  match kw with
  | [] => Return []
  | (key, e) :: kw' =>
      match assoc key fields_map with
      | None => Raise (FieldError key)
      | Some ty =>
          if String.eqb key pk_name then Raise IntegrityError
          else match resolve_update R kw' with
               | Raise e => Raise e
               | Return asgs => Return (Assignment key ty e :: asgs)
               end
      end
  end.

(** SET: every right-hand side reads the old row [kr]; a value outside the
    column type aborts the statement. *)
Fixpoint apply_update {R} `{Model R} (asgs : list assignment) (kr : Z * R) (acc : R) : result R :=
  match asgs with
  | [] => Return acc
  | a :: asgs' =>
      match eval_expr (asg_expr a) kr with
      | Raise e => Raise e
      | Return n =>
          if in_range (asg_type a) n
          then apply_update asgs' kr (set_field (asg_field a) n acc)
          else Raise NumericValueOutOfRange
      end
  end.

Fixpoint update_rows {R} `{Model R} (asgs : list assignment) (hits : list (Z * R)) : result (list (Z * R)) :=
  match hits with
  | [] => Return []
  | kr :: hits' =>
      match apply_update asgs kr kr.2 with
      | Raise e => Raise e
      | Return r' =>
          match update_rows asgs hits' with
          | Raise e => Raise e
          | Return news => Return ((kr.1, r') :: news)
          end
      end
  end.

(** A statement: one atomic transition of a table, with its outcome. *)
Abbreviation query R B := (gmap Z R → result B * gmap Z R).

Definition select {R} `{Model R} (cs : list criterion) (tbl : gmap Z R) : list (Z * R) :=
  map_to_list (filter (λ kr, matches cs kr = true) tbl).

(** [Model.filter(...).update(...)]: one UPDATE ... SET ... WHERE ...
    statement whose outcome is the number of rows it changed.  A statement
    that fails changes nothing. *)
Definition filter_update {R} `{Model R} (flt : kwargs) (sets : list (string * expr)) : query R Z :=
  λ tbl,
    match resolve_filters R flt with
    | Raise e => (Raise e, tbl)
    | Return cs =>
        match resolve_update R sets with
        | Raise e => (Raise e, tbl)
        | Return asgs =>
            match update_rows asgs (select cs tbl) with
            | Raise e => (Raise e, tbl)
            | Return news => (Return (Z.of_nat (length news)), list_to_map news ∪ tbl)
            end
        end
    end.

(** [Model.get(...)] and [Model.filter(...).get()]: exactly one row. *)
Definition filter_get {R} `{Model R} (flt : kwargs) : query R (Z * R) :=
  λ tbl,
    match resolve_filters R flt with
    | Raise e => (Raise e, tbl)
    | Return cs =>
        match select cs tbl with
        | [] => (Raise DoesNotExist, tbl)
        | [kr] => (Return kr, tbl)
        | _ => (Raise MultipleObjectsReturned, tbl)
        end
    end.

(** [Model.create(id=pk, ...)]: an INSERT; the primary key is unique. *)
Definition create {R} (pk : Z) (row : R) : query R (Z * R) :=
  λ tbl,
    match tbl !! pk with
    | Some _ => (Raise IntegrityError, tbl)
    | None => (Return (pk, row), <[pk := row]> tbl)
    end.

End Orm.

Import Orm.

(** ** Coroutines over a store *)

(** What a worker process sees: the rows of its table in the database, and
    the lines it has printed. *)
Record store (R : Type) := Store {
  rows : gmap Z R;
  console : list string
}.
Arguments Store {R} rows console.
Arguments rows {R} s.
Arguments console {R} s.

Definition set_rows {R} (t : gmap Z R) (s : store R) : store R :=
  Store t (console s).

Definition put_line {R} (line : string) (s : store R) : store R :=
  Store (rows s) (console s ++ [line]).

(** A coroutine body.  [Await q k] sends the statement [q] to the store and
    resumes with its outcome, which is where the event loop may run another
    task; [PrintLn] is the built-in [print]. *)
Inductive prog (R A : Type) : Type :=
| Ret (a : A)
| Throw (e : exn)
| PrintLn (line : string) (k : prog R A)
| Await {B : Type} (q : query R B) (k : result B → prog R A).
Arguments Ret {R A} a.
Arguments Throw {R A} e.
Arguments PrintLn {R A} line k.
Arguments Await {R A B} q k.

(** A coroutine that has ended with the outcome [r]. *)
Definition ended {R A} (r : result A) : prog R A :=
  match r with
  | Return a => Ret a
  | Raise e => Throw e
  end.

(** [await q]: the outcome of the statement, an exception being re-raised in
    the coroutine. *)
Definition await {R B} (q : query R B) : prog R B := Await q ended.

Fixpoint bind {R A B} (p : prog R A) (f : A → prog R B) : prog R B :=
  match p with
  | Ret a => f a
  | Throw e => Throw e
  | PrintLn line k => PrintLn line (bind k f)
  | Await q k => Await q (λ r, bind (k r) f)
  end.

(** [try: p except Exception: h]. *)
Fixpoint try_except {R A} (p : prog R A) (h : exn → prog R A) : prog R A :=
  match p with
  | Ret a => Ret a
  | Throw e => h e
  | PrintLn line k => PrintLn line (try_except k h)
  | Await q k => Await q (λ r, try_except (k r) h)
  end.

#[global] Instance prog_ret R : MRet (prog R) := λ A a, Ret a.
#[global] Instance prog_bind R : MBind (prog R) := λ A B f p, bind p f.

(** Running one coroutine to its end with nothing in between. *)
Fixpoint run {R A} (p : prog R A) (s : store R) : result A * store R :=
  match p with
  | Ret a => (Return a, s)
  | Throw e => (Raise e, s)
  | PrintLn line k => run k (put_line line s)
  | Await q k => let (r, t) := q (rows s) in run (k r) (set_rows t s)
  end.

(** One step of a task: its next [print] or its next statement.  A task that
    has returned or raised stays as it is. *)
Definition step {R A} (p : prog R A) (s : store R) : prog R A * store R :=
  match p with
  | Ret _ | Throw _ => (p, s)
  | PrintLn line k => (k, put_line line s)
  | Await q k => let (r, t) := q (rows s) in (k r, set_rows t s)
  end.

Definition finished {R A} (p : prog R A) : bool :=
  match p with
  | Ret _ | Throw _ => true
  | _ => false
  end.

(** Concurrent requests: a pool of tasks over one store.  A schedule names,
    step by step, the task that runs next; every interleaving of the
    statements of the tasks is the run of some schedule. *)
Definition sched_step {R A} (c : list (prog R A) * store R) (i : nat) : list (prog R A) * store R :=
  match c.1 !! i with
  | Some p => let (p', s') := step p c.2 in (<[i := p']> c.1, s')
  | None => c
  end.

Definition run_sched {R A} (sched : list nat) (c : list (prog R A) * store R) : list (prog R A) * store R :=
  foldl sched_step c sched.

(** Requests served one after the other. *)
Fixpoint run_all {R A} (ps : list (prog R A)) (s : store R) : list (result A) * store R :=
  match ps with
  | [] => ([], s)
  | p :: ps' =>
      let (r, s1) := run p s in
      let (rs, s2) := run_all ps' s1 in
      (r :: rs, s2)
  end.

(** ** 01-blog-views/worker.py *)

Module BlogViews.

(** [class Post(Model)], table [posts]; [id] is the key of the table. *)
Record Post := mkPost {
  title : string;
  content : string;
  views : Z
}.

#[global] Instance Post_model : Model Post := {|
  fields_map := [("id"%string, IntField); ("title"%string, CharField);
                 ("content"%string, TextField); ("views"%string, BigIntField)];
  pk_name := "id";
  get_field f kr :=
    if String.eqb f "id" then Some (VInt kr.1)
    else if String.eqb f "title" then Some (VStr (title kr.2))
    else if String.eqb f "content" then Some (VStr (content kr.2))
    else if String.eqb f "views" then Some (VInt (views kr.2))
    else None;
  set_field f n r :=
    if String.eqb f "views" then mkPost (title r) (content r) n else r
|}.

(** The start-up part of [lifespan], up to its [yield].  [RegisterTortoise]
    with [generate_schemas=True] creates the missing tables and touches no
    row. *)
Definition lifespan : prog Post unit :=
  try_except
    (PrintLn "Creating test blog post..."
       (await (create 1 (mkPost "Example blog post" "Hello! This is a blog post" 0));;
        PrintLn "Test blog post created" (Ret tt)))
    (λ _, PrintLn "Blog post already exists" (Ret tt)).

(** [GET /post/{post_id}] *)
Definition get_post (post_id : Z) : prog Post response :=
  post ← await (filter_get [("id"%string, VInt post_id)]);
  Ret [("post_id"%string, VInt post.1);
       ("title"%string, VStr (title post.2));
       ("content"%string, VStr (content post.2));
       ("views"%string, VInt (views post.2))].

(** [POST /view/{post_id}], the variant in use ("Safe and fast!"). *)
Definition view_post (post_id : Z) : prog Post response :=
  await (filter_update [("id"%string, VInt post_id)]
                       [("views"%string, Plus (F "views") (Const 1))]);;
  post ← await (filter_get [("id"%string, VInt post_id)]);
  Ret [("current_views"%string, VInt (views post.2))].

(** [view_post] once its UPDATE has returned: the follow-up fetch of line 95
    and the response. *)
Definition view_post_fetch (post_id : Z) : prog Post response :=
  post ← await (filter_get [("id"%string, VInt post_id)]);
  Ret [("current_views"%string, VInt (views post.2))].

(** The two variants the source keeps as strings under "UNSAFE!! DO NOT
    USE" (lines 57 to 77): read the row, add one in memory, write the value
    back with [save(update_fields=["views"])], answer the value in memory.
    The second one reads with [select_for_update()], whose lock is released
    as soon as the statement is done, so both are the same two statements. *)
Definition view_post_unsafe (post_id : Z) : prog Post response :=
  post ← await (filter_get [("id"%string, VInt post_id)]);
  let post := (post.1, mkPost (title post.2) (content post.2) (views post.2 + 1)) in
  await (filter_update [("id"%string, VInt post.1)]
                       [("views"%string, Const (views post.2))]);;
  Ret [("current_views"%string, VInt (views post.2))].

(** [view_post_unsafe] once its read has returned [post]. *)
Definition view_post_unsafe_save (post : Z * Post) : prog Post response :=
  let post := (post.1, mkPost (title post.2) (content post.2) (views post.2 + 1)) in
  await (filter_update [("id"%string, VInt post.1)]
                       [("views"%string, Const (views post.2))]);;
  Ret [("current_views"%string, VInt (views post.2))].

End BlogViews.

(** ** 02-game-shop/worker.py *)

Module GameShop.

(** [class Player(Model)], table [players]; [id] is the key of the table. *)
Record Player := mkPlayer {
  name : string;
  money : Z;
  level : Z
}.

#[global] Instance Player_model : Model Player := {|
  fields_map := [("id"%string, IntField); ("name"%string, CharField);
                 ("money"%string, IntField); ("level"%string, IntField)];
  pk_name := "id";
  get_field f kr :=
    if String.eqb f "id" then Some (VInt kr.1)
    else if String.eqb f "name" then Some (VStr (name kr.2))
    else if String.eqb f "money" then Some (VInt (money kr.2))
    else if String.eqb f "level" then Some (VInt (level kr.2))
    else None;
  set_field f n r :=
    if String.eqb f "money" then mkPlayer (name r) n (level r)
    else if String.eqb f "level" then mkPlayer (name r) (money r) n
    else r
|}.

(** The start-up part of [lifespan], up to its [yield]. *)
Definition lifespan : prog Player unit :=
  try_except
    (PrintLn "Creating test user..."
       (await (create 1 (mkPlayer "Alice" 1000 1));;
        PrintLn "Test user created" (Ret tt)))
    (λ _, PrintLn "User already exists" (Ret tt)).

(** [GET /player/{player_id}] *)
Definition get_info (player_id : Z) : prog Player response :=
  player ← await (filter_get [("id"%string, VInt player_id)]);
  Ret [("name"%string, VStr (name player.2));
       ("money"%string, VInt (money player.2));
       ("level"%string, VInt (level player.2))].

Definition COST : Z := 150.

(** What the SET clause [level=F("level") + 1, money=F("money") - COST] makes
    of one row: both right-hand sides read the row as it is, and each result
    has to fit the 32-bit column. *)
Definition debited (r : Player) : result Player :=
  if in_range IntField (level r + 1)
  then if in_range IntField (money r - COST)
       then Return (mkPlayer (name r) (money r - COST) (level r + 1))
       else Raise NumericValueOutOfRange
  else Raise NumericValueOutOfRange.

(** [POST /upgrade/{player_id}], the variant in use ("Fast and safe").  The
    second filter keyword is [money_gte], as the source spells it. *)
Definition upgrade_level (player_id : Z) : prog Player response :=
  rows_updated ← await (filter_update
                          [("id"%string, VInt player_id); ("money_gte"%string, VInt COST)]
                          [("level"%string, Plus (F "level") (Const 1));
                           ("money"%string, Minus (F "money") (Const COST))]);
  if rows_updated =? 0 then Ret [("error"%string, VStr "Not enough money")]
  else
    player ← await (filter_get [("id"%string, VInt player_id)]);
    Ret [("user_id"%string, VInt player.1);
         ("money"%string, VInt (money player.2));
         ("level"%string, VInt (level player.2))].

(** The same handler with the second filter keyword as a parameter:
    [debit kw] is its conditional update (lines 90 to 96), and
    [upgrade_level_with kw] its body around it.  [upgrade_level] is
    [upgrade_level_with "money_gte"]. *)
Definition debit (kw : string) (player_id : Z) : query Player Z :=
  filter_update [("id"%string, VInt player_id); (kw, VInt COST)]
                [("level"%string, Plus (F "level") (Const 1));
                 ("money"%string, Minus (F "money") (Const COST))].

Definition upgrade_level_with (kw : string) (player_id : Z) : prog Player response :=
  rows_updated ← await (debit kw player_id);
  if rows_updated =? 0 then Ret [("error"%string, VStr "Not enough money")]
  else
    player ← await (filter_get [("id"%string, VInt player_id)]);
    Ret [("user_id"%string, VInt player.1);
         ("money"%string, VInt (money player.2));
         ("level"%string, VInt (level player.2))].

End GameShop.

Import BlogViews GameShop.

(** ** Observations on runs *)

(** A store in which nothing has been created or printed yet. *)
Definition fresh {R} : store R := Store ∅ [].

(** The request got a response (no exception reached the framework). *)
Definition returned {A} (r : result A) : bool :=
  match r with
  | Return _ => true
  | Raise _ => false
  end.

(** The response is the one of a debit that went through: it carries
    [user_id], where the rejection carries [error]. *)
Definition upgraded (r : result response) : bool :=
  match r with
  | Return resp =>
      match assoc "user_id" resp with
      | Some _ => true
      | None => false
      end
  | Raise _ => false
  end.

Definition count_where {A} (f : A → bool) (l : list A) : Z :=
  Z.of_nat (length (List.filter f l)).

Definition money_of (s : store Player) (player_id : Z) : option Z :=
  money <$> rows s !! player_id.

Definition level_of (s : store Player) (player_id : Z) : option Z :=
  level <$> rows s !! player_id.

Definition views_of (s : store Post) (post_id : Z) : option Z :=
  views <$> rows s !! post_id.

(** *** Concurrent increments

    A [view_post post_id] task in the course of a schedule, by the number of
    turns it has had: none (it has not started), one (its UPDATE is done and
    it waits for its fetch), two or more (it has responded). *)
Inductive staged (post_id : Z) : nat → prog Post response → Prop :=
| staged_waiting : staged post_id 0 (view_post post_id)
| staged_fetching : staged post_id 1 (view_post_fetch post_id)
| staged_responded v : staged post_id 2 (Ret [("current_views"%string, VInt v)]).

Definition next_stage (k : nat) : nat :=
  match k with
  | O => 1%nat
  | S _ => 2%nat
  end.

(** The tasks whose UPDATE is done. *)
Fixpoint updates_done (ks : list nat) : Z :=
  match ks with
  | [] => 0
  | k :: ks' => (if Nat.eqb k 0 then 0 else 1) + updates_done ks'
  end.

(** The turns a schedule gives to task [i], and the stages of [N] tasks
    after it. *)
Definition turns (i : nat) (sched : list nat) : nat :=
  length (List.filter (Nat.eqb i) sched).

Definition stages (N : nat) (sched : list nat) : list nat :=
  (λ i, Nat.min 2 (turns i sched)) <$> seq 0 N.

(** What every interleaving keeps, for a row that started as [r]: each task
    is at its stage, and the row has counted exactly the UPDATEs that are
    done. *)
Definition counted (post_id : Z) (r : Post) (c : list (prog Post response) * store Post)
    (ks : list nat) : Prop :=
  Forall2 (staged post_id) ks c.1 ∧
  rows c.2 !! post_id = Some (mkPost (title r) (content r) (views r + updates_done ks)).

(** *** The two services side by side *)








(** ** Running coroutines *)

Section run_facts.
Context {R : Type}.

Lemma set_rows_same (s : store R) : set_rows (rows s) s = s.
Proof. by destruct s. Qed.

Lemma set_rows_twice (t1 t2 : gmap Z R) (s : store R) :
  set_rows t2 (set_rows t1 s) = set_rows t2 s.
Proof. done. Qed.

(** [run] of a sequence is the sequence of the [run]s; an exception of the
    first part skips the second. *)
Lemma run_bind {A B} (p : prog R A) (f : A → prog R B) (s : store R) :
  run (p ≫= f) s =
    match run p s with
    | (Return a, s') => run (f a) s'
    | (Raise e, s') => (Raise e, s')
    end.
Proof.
  revert s. induction p as [a|e|line k IH|C q k IH]; intros s; simpl.
  - done.
  - done.
  - apply IH.
  - destruct (q (rows s)) as [r t]. apply IH.
Qed.

Lemma run_await {B} (q : query R B) (s : store R) :
  run (await q) s = ((q (rows s)).1, set_rows (q (rows s)).2 s).
Proof. simpl. destruct (q (rows s)) as [[b|e] t]; done. Qed.

Lemma run_await_bind {A B} (q : query R B) (f : B → prog R A) (s : store R) :
  run (await q ≫= f) s =
    match q (rows s) with
    | (Return b, t) => run (f b) (set_rows t s)
    | (Raise e, t) => (Raise e, set_rows t s)
    end.
Proof. rewrite run_bind, run_await. by destruct (q (rows s)) as [[b|e] t]. Qed.

(** [try ... except Exception]: the handler runs in the state the
    exception left. *)
Lemma run_try_except {A} (p : prog R A) (h : exn → prog R A) (s : store R) :
  run (try_except p h) s =
    match run p s with
    | (Return a, s') => (Return a, s')
    | (Raise e, s') => run (h e) s'
    end.
Proof.
  revert s. induction p as [a|e|line k IH|C q k IH]; intros s; simpl.
  - done.
  - done.
  - apply IH.
  - destruct (q (rows s)) as [r t]. apply IH.
Qed.

(** The two ways of running agree: a task scheduled alone, for enough
    turns, ends with the outcome and in the state of [run]. *)
Lemma run_sched_alone {A} (p : prog R A) (s : store R) :
  ∃ n, run_sched (replicate n 0%nat) ([p], s) = ([ended (run p s).1], (run p s).2).
Proof.
  revert s. induction p as [a|e|line k IH|C q k IH]; intros s.
  - by exists 0%nat.
  - by exists 0%nat.
  - destruct (IH (put_line line s)) as [n Hn]. exists (S n). exact Hn.
  - destruct (q (rows s)) as [r t] eqn:Hq.
    destruct (IH r (set_rows t s)) as [n Hn]. exists (S n).
    cbn [replicate run_sched foldl run]. unfold sched_step at 2.
    simpl. rewrite Hq. exact Hn.
Qed.

End run_facts.

(** ** Facts about the ORM layer *)

Section orm_facts.
Context {R : Type} `{Model R}.

(** A WHERE clause that pins the primary key selects at most the row
    stored under that key. *)
Lemma select_keyed (cs : list criterion) (pid : Z) (tbl : gmap Z R) :
  (∀ kr, matches cs kr = true → kr.1 = pid) →
  select cs tbl =
    match tbl !! pid with
    | Some r => if matches cs (pid, r) then [(pid, r)] else []
    | None => []
    end.
Proof.
  intros Hpk. unfold select.
  destruct (tbl !! pid) as [r|] eqn:Hrow;
    [destruct (matches cs (pid, r)) eqn:Hm|].
  - replace (filter (λ kr, matches cs kr = true) tbl) with ({[pid := r]} : gmap Z R);
      [apply map_to_list_singleton|].
    apply map_eq; intros k; apply option_eq; intros x.
    rewrite map_lookup_filter_Some, lookup_singleton_Some; split.
    + intros [<- <-]; done.
    + intros [Hk Hx]. pose proof (Hpk _ Hx) as Hk'; simpl in Hk'; subst k.
      split; congruence.
  - replace (filter (λ kr, matches cs kr = true) tbl) with (∅ : gmap Z R);
      [apply map_to_list_empty|].
    apply map_eq; intros k; apply option_eq; intros x.
    rewrite map_lookup_filter_Some, lookup_empty; split; [done|].
    intros [Hk Hx]. pose proof (Hpk _ Hx) as Hk'; simpl in Hk'; subst k.
    congruence.
  - replace (filter (λ kr, matches cs kr = true) tbl) with (∅ : gmap Z R);
      [apply map_to_list_empty|].
    apply map_eq; intros k; apply option_eq; intros x.
    rewrite map_lookup_filter_Some, lookup_empty; split; [done|].
    intros [Hk Hx]. pose proof (Hpk _ Hx) as Hk'; simpl in Hk'; subst k.
    congruence.
Qed.

(** Writing back the one row an UPDATE changed. *)
Lemma write_back_one (pid : Z) (r' : R) (tbl : gmap Z R) :
  list_to_map [(pid, r')] ∪ tbl = <[pid := r']> tbl.
Proof.
  rewrite list_to_map_cons, list_to_map_nil, insert_empty.
  symmetry; apply insert_union_singleton_l.
Qed.

Lemma write_back_none (tbl : gmap Z R) : list_to_map [] ∪ tbl = tbl.
Proof. rewrite list_to_map_nil. apply (left_id_L ∅ (∪)). Qed.

End orm_facts.

(** ** The statements of the handlers, as transitions of the table *)

Section statements.

Lemma by_id_pins_key {R} `{Model R} (pid : Z) (cs : list criterion) (kr : Z * R) :
  get_field "id" kr = Some (VInt kr.1) →
  matches (Criterion "id" Exact (VInt pid) :: cs) kr = true → kr.1 = pid.
Proof.
  intros Hid. unfold matches; simpl. unfold holds at 1; simpl. rewrite Hid; simpl.
  intros Hm. apply andb_prop in Hm as [Hm _].
  apply bool_decide_eq_true in Hm. congruence.
Qed.

(** [Model.get(id=pid)]: the row stored under [pid], or [DoesNotExist]. *)
Lemma Post_get_by_id (pid : Z) (tbl : gmap Z Post) :
  filter_get [("id"%string, VInt pid)] tbl =
    match tbl !! pid with
    | Some r => (Return (pid, r), tbl)
    | None => (Raise DoesNotExist, tbl)
    end.
Proof.
  unfold filter_get.
  change (resolve_filters Post [("id"%string, VInt pid)])
    with (Return [Criterion "id" Exact (VInt pid)]).
  cbv beta iota.
  rewrite (select_keyed _ pid) by (intros kr; by apply by_id_pins_key).
  destruct (tbl !! pid) as [r|]; [|done].
  unfold matches, holds; simpl. by rewrite bool_decide_eq_true_2.
Qed.

Lemma Player_get_by_id (pid : Z) (tbl : gmap Z Player) :
  filter_get [("id"%string, VInt pid)] tbl =
    match tbl !! pid with
    | Some r => (Return (pid, r), tbl)
    | None => (Raise DoesNotExist, tbl)
    end.
Proof.
  unfold filter_get.
  change (resolve_filters Player [("id"%string, VInt pid)])
    with (Return [Criterion "id" Exact (VInt pid)]).
  cbv beta iota.
  rewrite (select_keyed _ pid) by (intros kr; by apply by_id_pins_key).
  destruct (tbl !! pid) as [r|]; [|done].
  unfold matches, holds; simpl. by rewrite bool_decide_eq_true_2.
Qed.

(** [UPDATE posts SET views = views + 1 WHERE id = pid]. *)
Lemma Post_increment (pid : Z) (tbl : gmap Z Post) :
  filter_update [("id"%string, VInt pid)]
                [("views"%string, Plus (F "views") (Const 1))] tbl =
    match tbl !! pid with
    | None => (Return 0, tbl)
    | Some r =>
        if in_range BigIntField (views r + 1)
        then (Return 1, <[pid := mkPost (title r) (content r) (views r + 1)]> tbl)
        else (Raise NumericValueOutOfRange, tbl)
    end.
Proof.
  unfold filter_update.
  change (resolve_filters Post [("id"%string, VInt pid)])
    with (Return [Criterion "id" Exact (VInt pid)]).
  change (resolve_update Post [("views"%string, Plus (F "views") (Const 1))])
    with (Return [Assignment "views" BigIntField (Plus (F "views") (Const 1))]).
  cbv beta iota.
  rewrite (select_keyed _ pid) by (intros kr; by apply by_id_pins_key).
  destruct (tbl !! pid) as [r|];
    [|cbn [update_rows length]; by rewrite write_back_none].
  replace (matches [Criterion "id" Exact (VInt pid)] (pid, r)) with true
    by (unfold matches, holds; simpl; by rewrite bool_decide_eq_true_2).
  cbn [update_rows apply_update asg_expr asg_type asg_field eval_expr fst snd].
  change (get_field "views" (pid, r)) with (Some (VInt (views r))).
  cbv beta iota.
  destruct (in_range BigIntField (views r + 1)); [|done].
  cbn [length]. by rewrite write_back_one.
Qed.

Lemma apply_debit (pid : Z) (r : Player) :
  apply_update
    [Assignment "level" IntField (Plus (F "level") (Const 1));
     Assignment "money" IntField (Minus (F "money") (Const COST))] (pid, r) r
  = debited r.
Proof.
  unfold debited.
  cbn [apply_update asg_expr asg_type asg_field eval_expr].
  change (get_field "level" (pid, r)) with (Some (VInt (level r))).
  change (get_field "money" (pid, r)) with (Some (VInt (money r))).
  cbv beta iota.
  destruct (in_range IntField (level r + 1)); [|done].
  destruct (in_range IntField (money r - COST)); done.
Qed.

(** The conditional update for an arbitrary second keyword [kw]: either
    [kw] is no filter key of [Player], or it names a column and a look-up
    that the row stored under [pid] has to pass. *)
Lemma debit_spec (kw : string) (pid : Z) (tbl : gmap Z Player) :
  debit kw pid tbl =
    match get_filter Player kw with
    | None => (Raise (FieldError kw), tbl)
    | Some (f, op) =>
        match tbl !! pid with
        | None => (Return 0, tbl)
        | Some r =>
            if holds (Criterion f op (VInt COST)) (pid, r)
            then match debited r with
                 | Return r' => (Return 1, <[pid := r']> tbl)
                 | Raise e => (Raise e, tbl)
                 end
            else (Return 0, tbl)
        end
    end.
Proof.
  unfold debit, filter_update.
  cbn [resolve_filters].
  change (get_filter Player "id") with (Some ("id"%string, Exact)).
  cbv beta iota.
  destruct (get_filter Player kw) as [[f op]|]; [|done].
  change (resolve_update Player _)
    with (Return [Assignment "level" IntField (Plus (F "level") (Const 1));
                  Assignment "money" IntField (Minus (F "money") (Const COST))]).
  cbv beta iota.
  rewrite (select_keyed _ pid) by (intros kr; by apply by_id_pins_key).
  destruct (tbl !! pid) as [r|];
    [|cbn [update_rows length]; by rewrite write_back_none].
  replace (matches [Criterion "id" Exact (VInt pid); Criterion f op (VInt COST)] (pid, r))
    with (holds (Criterion f op (VInt COST)) (pid, r)).
  2:{ unfold matches; cbn [forallb]. rewrite andb_true_r.
      unfold holds at 2; simpl. by rewrite bool_decide_eq_true_2. }
  destruct (holds _ _);
    [|cbn [update_rows length]; by rewrite write_back_none].
  cbn [update_rows fst snd]. rewrite apply_debit.
  destruct (debited r) as [r'|e]; [|done].
  cbn [length]. by rewrite write_back_one.
Qed.

(** The keyword as the source spells it is no filter key of [Player]. *)
Lemma money_gte_unknown : get_filter Player "money_gte" = None.
Proof. reflexivity. Qed.

(** With a double underscore it is the look-up [gte] on [money]. *)
Lemma money__gte_known : get_filter Player "money__gte" = Some ("money"%string, Gte).
Proof. reflexivity. Qed.

End statements.

(** ** The handlers, run to completion *)

Section handlers.

Lemma run_get_post (pid : Z) (s : store Post) :
  run (get_post pid) s =
    match rows s !! pid with
    | Some r =>
        (Return [("post_id"%string, VInt pid); ("title"%string, VStr (title r));
                 ("content"%string, VStr (content r)); ("views"%string, VInt (views r))], s)
    | None => (Raise DoesNotExist, s)
    end.
Proof.
  unfold get_post. rewrite run_await_bind, Post_get_by_id.
  destruct (rows s !! pid) as [r|]; by rewrite set_rows_same.
Qed.

Lemma run_view_post_fetch (pid : Z) (s : store Post) :
  run (view_post_fetch pid) s =
    match rows s !! pid with
    | Some r => (Return [("current_views"%string, VInt (views r))], s)
    | None => (Raise DoesNotExist, s)
    end.
Proof.
  unfold view_post_fetch. rewrite run_await_bind, Post_get_by_id.
  destruct (rows s !! pid) as [r|]; by rewrite set_rows_same.
Qed.

Lemma run_view_post (pid : Z) (s : store Post) :
  run (view_post pid) s =
    match rows s !! pid with
    | None => (Raise DoesNotExist, s)
    | Some r =>
        if in_range BigIntField (views r + 1)
        then (Return [("current_views"%string, VInt (views r + 1))],
              set_rows (<[pid := mkPost (title r) (content r) (views r + 1)]> (rows s)) s)
        else (Raise NumericValueOutOfRange, s)
    end.
Proof.
  unfold view_post. rewrite run_await_bind, Post_increment.
  fold (view_post_fetch pid).
  destruct (rows s !! pid) as [r|] eqn:Hrow.
  - destruct (in_range BigIntField (views r + 1)).
    + rewrite run_view_post_fetch. cbn [rows set_rows].
      by rewrite lookup_insert_eq.
    + by rewrite set_rows_same.
  - rewrite run_view_post_fetch, set_rows_same. by rewrite Hrow.
Qed.

Lemma run_get_info (pid : Z) (s : store Player) :
  run (get_info pid) s =
    match rows s !! pid with
    | Some r =>
        (Return [("name"%string, VStr (name r)); ("money"%string, VInt (money r));
                 ("level"%string, VInt (level r))], s)
    | None => (Raise DoesNotExist, s)
    end.
Proof.
  unfold get_info. rewrite run_await_bind, Player_get_by_id.
  destruct (rows s !! pid) as [r|]; by rewrite set_rows_same.
Qed.

(** [upgrade_level] for an arbitrary second filter keyword. *)
Lemma run_upgrade_level_with (kw : string) (pid : Z) (s : store Player) :
  run (upgrade_level_with kw pid) s =
    match get_filter Player kw with
    | None => (Raise (FieldError kw), s)
    | Some (f, op) =>
        match rows s !! pid with
        | None => (Return [("error"%string, VStr "Not enough money")], s)
        | Some r =>
            if holds (Criterion f op (VInt COST)) (pid, r)
            then match debited r with
                 | Return r' =>
                     (Return [("user_id"%string, VInt pid); ("money"%string, VInt (money r'));
                              ("level"%string, VInt (level r'))],
                      set_rows (<[pid := r']> (rows s)) s)
                 | Raise e => (Raise e, s)
                 end
            else (Return [("error"%string, VStr "Not enough money")], s)
        end
    end.
Proof.
  unfold upgrade_level_with. rewrite run_await_bind, debit_spec.
  destruct (get_filter Player kw) as [[f op]|]; [|by rewrite set_rows_same].
  destruct (rows s !! pid) as [r|]; [|by rewrite set_rows_same].
  destruct (holds _ _); [|by rewrite set_rows_same].
  destruct (debited r) as [r'|e]; [|by rewrite set_rows_same].
  cbv beta iota. change (1 =? 0) with false. cbv beta iota.
  rewrite run_await_bind, Player_get_by_id. cbn [rows set_rows].
  by rewrite lookup_insert_eq.
Qed.

Lemma upgrade_level_spelling (pid : Z) :
  upgrade_level pid = upgrade_level_with "money_gte" pid.
Proof. reflexivity. Qed.

(** The handler as the source has it: the query is refused before anything
    reaches the store. *)
Lemma run_upgrade_level (pid : Z) (s : store Player) :
  run (upgrade_level pid) s = (Raise (FieldError "money_gte"), s).
Proof.
  rewrite upgrade_level_spelling. by rewrite run_upgrade_level_with, money_gte_unknown.
Qed.

Lemma run_lifespan_blog (s : store Post) :
  run BlogViews.lifespan s =
    match rows s !! 1 with
    | Some _ =>
        (Return (), Store (rows s)
                      (console s ++ ["Creating test blog post..."; "Blog post already exists"]%string))
    | None =>
        (Return (), Store (<[1 := mkPost "Example blog post" "Hello! This is a blog post" 0]> (rows s))
                      (console s ++ ["Creating test blog post..."; "Test blog post created"]%string))
    end.
Proof.
  unfold BlogViews.lifespan. rewrite run_try_except. simpl. unfold create.
  destruct (rows s !! 1) as [r|]; simpl; unfold put_line, set_rows; simpl;
    by rewrite <- app_assoc.
Qed.

Lemma run_lifespan_shop (s : store Player) :
  run GameShop.lifespan s =
    match rows s !! 1 with
    | Some _ =>
        (Return (), Store (rows s)
                      (console s ++ ["Creating test user..."; "User already exists"]%string))
    | None =>
        (Return (), Store (<[1 := mkPlayer "Alice" 1000 1]> (rows s))
                      (console s ++ ["Creating test user..."; "Test user created"]%string))
    end.
Proof.
  unfold GameShop.lifespan. rewrite run_try_except. simpl. unfold create.
  destruct (rows s !! 1) as [r|]; simpl; unfold put_line, set_rows; simpl;
    by rewrite <- app_assoc.
Qed.

End handlers.

(** ** Counting answers *)

Lemma count_where_cons {A} (f : A → bool) (x : A) (l : list A) :
  count_where f (x :: l) = (if f x then 1 else 0) + count_where f l.
Proof. unfold count_where. cbn [List.filter]. destruct (f x); cbn [length]; lia. Qed.


(** ** The debit with the look-up joined by a double underscore

    The variant in use is refused by the ORM ([run_upgrade_level]).  The same
    body with the keyword spelled [money__gte] tests the balance. *)

Section spellings.

Lemma run_upgrade_level_gte (pid : Z) (s : store Player) :
  run (upgrade_level_with "money__gte" pid) s =
    match rows s !! pid with
    | None => (Return [("error"%string, VStr "Not enough money")], s)
    | Some r =>
        if COST <=? money r
        then match debited r with
             | Return r' =>
                 (Return [("user_id"%string, VInt pid); ("money"%string, VInt (money r'));
                          ("level"%string, VInt (level r'))],
                  set_rows (<[pid := r']> (rows s)) s)
             | Raise e => (Raise e, s)
             end
        else (Return [("error"%string, VStr "Not enough money")], s)
    end.
Proof. by rewrite run_upgrade_level_with, money__gte_known. Qed.

(** With the double underscore the statement is the one the comments of
    the source describe: it selects the row [id = pid AND money >= COST],
    debits it and counts it. *)
Lemma debit_gte (pid : Z) (tbl : gmap Z Player) :
  debit "money__gte" pid tbl =
    match tbl !! pid with
    | None => (Return 0, tbl)
    | Some r =>
        if COST <=? money r
        then match debited r with
             | Return r' => (Return 1, <[pid := r']> tbl)
             | Raise e => (Raise e, tbl)
             end
        else (Return 0, tbl)
    end.
Proof. by rewrite debit_spec, money__gte_known. Qed.

Lemma debited_in_range (r : Player) :
  COST ≤ money r < 2 ^ 31 → - 2 ^ 31 ≤ level r + 1 < 2 ^ 31 →
  debited r = Return (mkPlayer (name r) (money r - COST) (level r + 1)).
Proof.
  intros Hm Hl. unfold debited, in_range, COST in *.
  rewrite !(proj2 (andb_true_iff _ _)); [done| |];
    split; first [apply Z.leb_le | apply Z.ltb_lt]; lia.
Qed.

(** The scenario of the shop on that spelling: six debits go through and
    leave [money=100, level=7], the seventh is turned down and changes
    nothing. *)
Lemma scenario_gte :
  let out := run_all (replicate 7 (upgrade_level_with "money__gte" 1))
               (run GameShop.lifespan fresh).2 in
  upgraded <$> out.1 = [true; true; true; true; true; true; false] ∧
  out.1 !! 6%nat = Some (Return [("error"%string, VStr "Not enough money")]) ∧
  rows out.2 = {[ 1 := mkPlayer "Alice" 100 7 ]}.
Proof. vm_compute. done. Qed.

(** With the double underscore, [n] debits in a row against a balance [B]
    go through exactly [min n (floor (B / COST))] times, and the balance
    never goes below zero. *)
Lemma debits_exact_gte (n : nat) (pid : Z) (s : store Player) (r : Player) :
  rows s !! pid = Some r →
  0 ≤ money r < 2 ^ 31 → - 2 ^ 31 ≤ level r → level r + Z.of_nat n < 2 ^ 31 →
  let out := run_all (replicate n (upgrade_level_with "money__gte" pid)) s in
  let k := Z.min (Z.of_nat n) (money r / COST) in
  count_where upgraded out.1 = k ∧
  rows out.2 !! pid = Some (mkPlayer (name r) (money r - k * COST) (level r + k)) ∧
  0 ≤ money r - k * COST.
Proof.
  revert s r. induction n as [|n IH]; intros s r Hrow Hm Hl Hh; cbv zeta.
  - assert (0 ≤ money r / COST) by (apply Z.div_pos; unfold COST; lia).
    cbn [replicate run_all fst snd]. rewrite Z.min_l by lia.
    rewrite Z.mul_0_l, Z.sub_0_r, Z.add_0_r. split; [done|]. split; [|lia].
    rewrite Hrow. by destruct r.
  - cbn [replicate run_all]. rewrite run_upgrade_level_gte, Hrow.
    destruct (Z.leb_spec COST (money r)) as [Hge|Hlt].
    + rewrite debited_in_range by lia.
      set (r1 := mkPlayer (name r) (money r - COST) (level r + 1)).
      set (s1 := set_rows (<[pid := r1]> (rows s)) s).
      assert (money r1 / COST = money r / COST - 1) as Hdiv.
      { subst r1. cbn [money]. unfold COST.
        replace (money r - 150) with (money r + (-1) * 150) by lia.
        rewrite Z.div_add by lia. lia. }
      assert (0 ≤ money r1 / COST)
        by (apply Z.div_pos; subst r1; cbn [money]; unfold COST in *; lia).
      destruct (IH s1 r1) as (Hcnt & Hfin & Hpos);
        [by (subst s1; cbn [rows set_rows]; rewrite lookup_insert_eq)
        | subst r1; cbn [money]; unfold COST in *; lia
        | subst r1; cbn [level]; lia | subst r1; cbn [level]; lia |].
      destruct (run_all (replicate n (upgrade_level_with "money__gte" pid)) s1) as [rs s2].
      cbn [fst snd] in *. rewrite count_where_cons, Hcnt, Hfin.
      change (upgraded (Return _)) with true. cbv beta iota.
      rewrite Hdiv in *.
      replace (Z.min (Z.of_nat (S n)) (money r / COST))
        with (1 + Z.min (Z.of_nat n) (money r / COST - 1)) by lia.
      subst r1. cbn [name money level] in *.
      split; [done|]. split; [do 2 f_equal; lia | lia].
    + assert (money r / COST = 0) as Hdiv by (apply Z.div_small; lia).
      destruct (IH s r Hrow Hm Hl) as (Hcnt & Hfin & Hpos); [lia|].
      destruct (run_all (replicate n (upgrade_level_with "money__gte" pid)) s) as [rs s2].
      cbn [fst snd] in *. rewrite count_where_cons, Hcnt, Hfin.
      change (upgraded (Return _)) with false. cbv beta iota.
      rewrite Hdiv in *. rewrite !Z.min_r by lia.
      split; [done|]. split; [done|lia].
Qed.

End spellings.

(** ** POST /upgrade/{player_id} *)

Section upgrade.

Lemma run_all_upgrade_level (n : nat) (pid : Z) (s : store Player) :
  run_all (replicate n (upgrade_level pid)) s =
    (replicate n (Raise (FieldError "money_gte")), s).
Proof.
  induction n as [|n IH]; [done|].
  cbn [replicate run_all]. by rewrite run_upgrade_level, IH.
Qed.

(** Interleaved, the requests fare no better: whatever the schedule, every
    turn of a request is the refused query, and the store stays as it is. *)
Lemma step_upgrade_level (pid : Z) (s : store Player) :
  step (upgrade_level pid) s = (Throw (FieldError "money_gte"), s).
Proof.
  unfold upgrade_level. cbn [mbind prog_bind bind await ended step].
  change (filter_update _ _ (rows s)) with (debit "money_gte" pid (rows s)).
  rewrite debit_spec, money_gte_unknown. by rewrite set_rows_same.
Qed.

Lemma run_sched_upgrade_level (pid : Z) (sched : list nat)
    (ts : list (prog Player response)) (s : store Player) :
  Forall (λ t, t = upgrade_level pid ∨ t = Throw (FieldError "money_gte")) ts →
  (run_sched sched (ts, s)).2 = s.
Proof.
  revert ts. induction sched as [|i sched IH]; intros ts Hts; [done|].
  cbn [run_sched foldl]. unfold sched_step at 2. cbn [fst snd].
  destruct (ts !! i) as [t|] eqn:Hi; [|by apply IH].
  assert (step t s = (Throw (FieldError "money_gte"), s)) as ->.
  { destruct (proj1 (Forall_lookup _ _) Hts i t Hi) as [->| ->];
      [apply step_upgrade_level|done]. }
  apply IH. apply Forall_insert; [done|by right].
Qed.

Lemma count_upgraded_raises (n : nat) (e : exn) :
  count_where upgraded (replicate n (Raise e)) = 0.
Proof. unfold count_where. induction n as [|n IH]; [done|]. exact IH. Qed.

Lemma upgrade_level_refused_everywhere (pid : Z) (tbl : gmap Z Player) (s : store Player) :
  debit "money_gte" pid tbl = (Raise (FieldError "money_gte"), tbl) ∧
  run (upgrade_level pid) s = (Raise (FieldError "money_gte"), s).
Proof.
  split; [|apply run_upgrade_level].
  by rewrite debit_spec, money_gte_unknown.
Qed.

(** C1.  Claim: the conditional update of [POST /upgrade/{id}] selects the
    rows with [id = given_id AND money >= COST], sets
    [money = money - COST] and [level = level + 1] on them in one statement
    and returns the number of rows affected, 0 or 1.  The code spells the
    second filter keyword [money_gte]; this is no filter key of [Player],
    so for every identifier and every table the statement is refused with
    [FieldError], no count is returned, and the handler raises without
    touching the store. *)
Theorem upgrade_level_update_refused (pid : Z) (tbl : gmap Z Player) (s : store Player) :
  debit "money_gte" pid tbl = (Raise (FieldError "money_gte"), tbl) ∧
  run (upgrade_level pid) s = (Raise (FieldError "money_gte"), s).
Proof. apply upgrade_level_refused_everywhere. Qed.

(** C2.  Claim: of a sequence of debit requests against a balance [B],
    [floor (B / 150)] succeed, the balance ends at [B] less 150 per success,
    and it is never negative.  The code: every request of every sequence
    raises [FieldError] (the keyword [money_gte]), so none succeeds and the
    row is never debited, served in a row or interleaved; against
    [B = 1000] seven requests give no success, where
    [min 7 (floor (1000 / 150)) = 6]. *)
Theorem debits_none_succeed (n : nat) (pid : Z) (s : store Player) :
  (run_all (replicate n (upgrade_level pid)) s).1
    = replicate n (Raise (FieldError "money_gte")) ∧
  count_where upgraded (run_all (replicate n (upgrade_level pid)) s).1 = 0 ∧
  (run_all (replicate n (upgrade_level pid)) s).2 = s ∧
  (∀ sched, (run_sched sched (replicate n (upgrade_level pid), s)).2 = s) ∧
  (money_of (Store {[ 1 := mkPlayer "Alice" 1000 1 ]} []) 1 = Some 1000 ∧
   count_where upgraded
     (run_all (replicate 7 (upgrade_level 1)) (Store {[ 1 := mkPlayer "Alice" 1000 1 ]} [])).1
     = 0 ∧
   Z.min 7 (1000 / COST) = 6).
Proof.
  rewrite !run_all_upgrade_level. cbn [fst snd]. rewrite !count_upgraded_raises.
  split; [done|]. split; [done|]. split; [done|]. split; [|by split].
  intros sched. apply (run_sched_upgrade_level pid). apply Forall_replicate. by left.
Qed.

(** C3.  Claim: a debit request against a row whose balance is below the
    cost is rejected with 0 rows affected and leaves money and level as they
    are.  The code leaves the row as it is, but not by a rejection: the
    update reports no count at all, it raises [FieldError], and so does the
    handler. *)
Theorem poor_player_debit_raises (pid : Z) (s : store Player) (r : Player) :
  rows s !! pid = Some r → money r < COST →
  debit "money_gte" pid (rows s) = (Raise (FieldError "money_gte"), rows s) ∧
  run (upgrade_level pid) s = (Raise (FieldError "money_gte"), s).
Proof. intros _ _. apply upgrade_level_refused_everywhere. Qed.

Lemma poor_player_debit_raises_witness :
  let s := Store {[ 1 := mkPlayer "Alice" 100 1 ]} [] in
  rows s !! 1 = Some (mkPlayer "Alice" 100 1) ∧ 100 < COST ∧
  debit "money_gte" 1 (rows s) = (Raise (FieldError "money_gte"), rows s) ∧
  run (upgrade_level 1) s = (Raise (FieldError "money_gte"), s).
Proof.
  cbv zeta. split; [reflexivity|]. split; [reflexivity|].
  apply (poor_player_debit_raises 1 (Store {[ 1 := mkPlayer "Alice" 100 1 ]} [])
           (mkPlayer "Alice" 100 1)); reflexivity.
Defined.

(** C4.  Claim: from [money=1000, level=1] six debit calls in a row succeed
    and leave [money=100, level=7], and a seventh is rejected with
    [{"error": "Not enough money"}].  The code, started on an empty table:
    [lifespan] creates the row, then each of the seven calls raises
    [FieldError] and the row stays at [money=1000, level=1]. *)
Theorem scenario_all_refused :
  rows (run GameShop.lifespan fresh).2 = {[ 1 := mkPlayer "Alice" 1000 1 ]} ∧
  (run_all (replicate 7 (upgrade_level 1)) (run GameShop.lifespan fresh).2).1
    = replicate 7 (Raise (FieldError "money_gte")) ∧
  rows (run_all (replicate 7 (upgrade_level 1)) (run GameShop.lifespan fresh).2).2
    = {[ 1 := mkPlayer "Alice" 1000 1 ]}.
Proof.
  rewrite run_all_upgrade_level, run_lifespan_shop. cbn [fst snd].
  split; [|split]; reflexivity.
Qed.

(** Lines 98 and 99 by themselves: for any second filter keyword [kw], when
    the conditional update reports no row the handler answers
    [{"error": "Not enough money"}]. *)
Lemma zero_rows_is_rejection (kw : string) (pid : Z) (s : store Player) (tbl' : gmap Z Player) :
  debit kw pid (rows s) = (Return 0, tbl') →
  run (upgrade_level_with kw pid) s =
    (Return [("error"%string, VStr "Not enough money")], set_rows tbl' s).
Proof.
  intros Hzero. unfold upgrade_level_with. by rewrite run_await_bind, Hzero.
Qed.

(** C5.  Claim: whenever the conditional update affects no row, the handler
    returns [{"error": "Not enough money"}] as a normal result, also for an
    identifier that does not exist, and raises nothing.  The code: the update
    never reports a row count, so the test of line 98 is never reached and
    the handler never returns that response; for an identifier with no row,
    and for a row whose balance is below the cost, it raises [FieldError]. *)
Theorem rejection_never_returned (pid : Z) (s : store Player) :
  (∀ n tbl', debit "money_gte" pid (rows s) ≠ (Return n, tbl')) ∧
  returned (run (upgrade_level pid) s).1 = false ∧
  (run (upgrade_level pid) s).1 ≠ Return [("error"%string, VStr "Not enough money")] ∧
  (rows s !! pid = None →
   run (upgrade_level pid) s = (Raise (FieldError "money_gte"), s)) ∧
  (∀ r, rows s !! pid = Some r → money r < COST →
        run (upgrade_level pid) s = (Raise (FieldError "money_gte"), s)).
Proof.
  rewrite run_upgrade_level. cbn [fst returned].
  split; [|by repeat split].
  intros n tbl'. by rewrite debit_spec, money_gte_unknown.
Qed.

End upgrade.

(** ** POST /view/{post_id} *)

Section views.

Lemma in_range_BigIntField (v : Z) :
  - 2 ^ 63 ≤ v < 2 ^ 63 → in_range BigIntField v = true.
Proof.
  intros Hv. unfold in_range. apply andb_true_iff.
  split; [apply Z.leb_le | apply Z.ltb_lt]; lia.
Qed.

(** Calls in a row: each sees the counter the previous one left. *)
Lemma view_posts_in_a_row (n : nat) (pid : Z) (s : store Post) (r : Post) :
  rows s !! pid = Some r →
  - 2 ^ 63 ≤ views r → views r + Z.of_nat n < 2 ^ 63 →
  let out := run_all (replicate n (view_post pid)) s in
  out.1 = (λ i, Return [("current_views"%string, VInt (views r + Z.of_nat i))]) <$> seq 1 n ∧
  rows out.2 !! pid = Some (mkPost (title r) (content r) (views r + Z.of_nat n)) ∧
  (∀ j, j ≠ pid → rows out.2 !! j = rows s !! j).
Proof.
  revert s r. induction n as [|n IH]; intros s r Hrow Hlo Hhi; cbv zeta.
  - cbn [replicate run_all fst snd seq fmap list_fmap]. split; [done|]. split; [|done].
    rewrite Hrow, Z.add_0_r. by destruct r.
  - cbn [replicate run_all]. rewrite run_view_post, Hrow.
    rewrite in_range_BigIntField by lia.
    set (r1 := mkPost (title r) (content r) (views r + 1)).
    set (s1 := set_rows (<[pid := r1]> (rows s)) s).
    destruct (IH s1 r1) as (Hres & Hfin & Hoth);
      [by (subst s1; cbn [rows set_rows]; rewrite lookup_insert_eq)
      | subst r1; cbn [views]; lia | subst r1; cbn [views]; lia |].
    destruct (run_all (replicate n (view_post pid)) s1) as [rs s2].
    cbn [fst snd] in *. split; [|split].
    + rewrite Hres. change (seq 1 (S n)) with (1%nat :: seq 2 n).
      rewrite <- (fmap_S_seq 1 n), fmap_cons, <- list_fmap_compose.
      f_equal. apply list_fmap_ext. intros _ i _. subst r1. cbn [views compose].
      do 4 f_equal. lia.
    + rewrite Hfin. subst r1. cbn [title content views]. do 2 f_equal. lia.
    + intros j Hj. rewrite Hoth by done. subst s1. cbn [rows set_rows].
      by rewrite lookup_insert_ne.
Qed.

(** C6, the claim as stated fails on a row at the top of the 64-bit
    column: the increment is refused by the store, the call raises, and the
    row is not one greater. *)
Lemma increment_at_maximum_counterexample :
  views_of (Store {[ 1 := mkPost "Example blog post" "Hello! This is a blog post" (2 ^ 63 - 1) ]} []) 1
    = Some (2 ^ 63 - 1) ∧
  (run (view_post 1)
     (Store {[ 1 := mkPost "Example blog post" "Hello! This is a blog post" (2 ^ 63 - 1) ]} [])).1
    = Raise NumericValueOutOfRange ∧
  views_of
    (run (view_post 1)
       (Store {[ 1 := mkPost "Example blog post" "Hello! This is a blog post" (2 ^ 63 - 1) ]} [])).2 1
    ≠ Some (2 ^ 63 - 1 + 1).
Proof. vm_compute. repeat split; discriminate. Qed.

(** C6, as amended.  For every post row whose [views] is a 64-bit value
    below the maximum, one increment call answers with a [views] value one
    greater than before, the row holds that value, and a read right after
    returns it; and from [views = 0], a hundred calls in a row leave
    [views = 100]. *)
Theorem increment_then_read (pid : Z) (s : store Post) (r : Post) :
  rows s !! pid = Some r →
  - 2 ^ 63 ≤ views r < 2 ^ 63 - 1 →
  (run (view_post pid) s).1 = Return [("current_views"%string, VInt (views r + 1))] ∧
  views_of (run (view_post pid) s).2 pid = Some (views r + 1) ∧
  (run (get_post pid) (run (view_post pid) s).2).1 =
    Return [("post_id"%string, VInt pid); ("title"%string, VStr (title r));
            ("content"%string, VStr (content r)); ("views"%string, VInt (views r + 1))] ∧
  (views r = 0 →
   views_of (run_all (replicate 100 (view_post pid)) s).2 pid = Some 100).
Proof.
  intros Hrow Hv. rewrite run_view_post, Hrow, in_range_BigIntField by lia.
  cbn [fst snd]. split; [done|].
  unfold views_of. cbn [rows set_rows]. rewrite lookup_insert_eq. split; [done|].
  rewrite run_get_post. cbn [rows set_rows]. rewrite lookup_insert_eq. split; [done|].
  intros H0. destruct (view_posts_in_a_row 100 pid s r) as (_ & Hfin & _);
    [done | lia | lia |].
  rewrite Hfin. cbn. by rewrite H0.
Qed.

Lemma increment_then_read_witness :
  let r := mkPost "Example blog post" "Hello! This is a blog post" 0 in
  let s := Store {[ 1 := r ]} [] in
  rows s !! 1 = Some r ∧
  - 2 ^ 63 ≤ views r < 2 ^ 63 - 1 ∧
  (run (view_post 1) s).1 = Return [("current_views"%string, VInt (views r + 1))] ∧
  views_of (run (view_post 1) s).2 1 = Some (views r + 1) ∧
  (run (get_post 1) (run (view_post 1) s).2).1 =
    Return [("post_id"%string, VInt 1); ("title"%string, VStr (title r));
            ("content"%string, VStr (content r)); ("views"%string, VInt (views r + 1))] ∧
  (views r = 0 →
   views_of (run_all (replicate 100 (view_post 1)) s).2 1 = Some 100).
Proof.
  cbv zeta. split; [reflexivity|]. split; [cbn; lia|].
  apply (increment_then_read 1
           (Store {[ 1 := mkPost "Example blog post" "Hello! This is a blog post" 0 ]} [])
           (mkPost "Example blog post" "Hello! This is a blog post" 0));
    [reflexivity | cbn; lia].
Defined.

End views.

(** ** Concurrent increments *)

Section concurrent_views.
Variable pid : Z.

(** The first turn of a request: its UPDATE. *)
Lemma step_view_post (s : store Post) :
  step (view_post pid) s =
    match rows s !! pid with
    | None => (view_post_fetch pid, s)
    | Some r =>
        if in_range BigIntField (views r + 1)
        then (view_post_fetch pid,
              set_rows (<[pid := mkPost (title r) (content r) (views r + 1)]> (rows s)) s)
        else (Throw NumericValueOutOfRange, s)
    end.
Proof.
  unfold view_post. cbn [mbind prog_bind bind await ended step]. rewrite Post_increment.
  destruct (rows s !! pid) as [r|]; [|by rewrite set_rows_same].
  destruct (in_range BigIntField (views r + 1)); [done|by rewrite set_rows_same].
Qed.

(** Its second turn: the fetch, which reads whatever the row holds by then. *)
Lemma step_view_post_fetch (s : store Post) :
  step (view_post_fetch pid) s =
    match rows s !! pid with
    | Some r => (Ret [("current_views"%string, VInt (views r))], s)
    | None => (Throw DoesNotExist, s)
    end.
Proof.
  unfold view_post_fetch. cbn [mbind prog_bind bind await ended step]. rewrite Post_get_by_id.
  destruct (rows s !! pid) as [r|]; by rewrite set_rows_same.
Qed.

Lemma updates_done_bounds (ks : list nat) : 0 ≤ updates_done ks ≤ Z.of_nat (length ks).
Proof.
  induction ks as [|k ks IH]; cbn [updates_done length]; [lia|].
  destruct (Nat.eqb k 0); lia.
Qed.

(** Moving task [i] to its next stage counts one more UPDATE exactly when
    the task had not started. *)
Lemma updates_done_alter (ks : list nat) (i k : nat) :
  ks !! i = Some k →
  updates_done (alter next_stage i ks) =
    updates_done ks + (if Nat.eqb k 0 then 1 else 0) ∧
  (k = 0%nat → updates_done ks + 1 ≤ Z.of_nat (length ks)).
Proof.
  revert i. induction ks as [|k0 ks IH]; intros [|i] Hi; simpl in Hi; simplify_eq.
  - cbn [alter list_alter updates_done length].
    pose proof (updates_done_bounds ks). destruct k; cbn; split; lia.
  - destruct (IH i Hi) as [Heq Hle].
    change (alter next_stage (S i) (k0 :: ks)) with (k0 :: alter next_stage i ks).
    cbn [updates_done length]. rewrite Heq.
    split; [lia|]. intros ->. specialize (Hle eq_refl). destruct (Nat.eqb k0 0); lia.
Qed.

Lemma updates_done_all (ks : list nat) :
  Forall (λ k, k = 2%nat) ks → updates_done ks = Z.of_nat (length ks).
Proof.
  induction 1 as [|k ks -> _ IH]; cbn [updates_done length]; [done|].
  rewrite IH. cbn. lia.
Qed.

Lemma staged_replicate (n : nat) :
  Forall2 (staged pid) (replicate n 0%nat) (replicate n (view_post pid)).
Proof. induction n; cbn [replicate]; constructor; [constructor|done]. Qed.

(** One turn of task [i], in any state the invariant allows. *)
Lemma sched_step_counted (N : nat) (r : Post) (c : list (prog Post response) * store Post)
    (ks : list nat) (i : nat) :
  - 2 ^ 63 ≤ views r → views r + Z.of_nat N < 2 ^ 63 →
  length ks = N → counted pid r c ks →
  counted pid r (sched_step c i) (alter next_stage i ks).
Proof.
  intros Hlo Hhi Hlen [Hpool Hrow]. destruct c as [ts s]; cbn [fst snd] in *.
  unfold sched_step, counted; cbn [fst snd].
  destruct (ts !! i) as [t|] eqn:Hi.
  2:{ assert (ks !! i = None) as Hnone.
      { apply lookup_ge_None. rewrite (Forall2_length _ _ _ Hpool).
        by apply lookup_ge_None. }
      cbn [fst snd]. replace (alter next_stage i ks) with ks; [done|].
      apply list_eq. intros j. destruct (decide (i = j)) as [<-|Hne].
      - by rewrite list_lookup_alter_eq, Hnone.
      - by rewrite list_lookup_alter_ne. }
  destruct (Forall2_lookup_r _ _ _ _ _ Hpool Hi) as (k & Hk & Hst).
  destruct (updates_done_alter ks i k Hk) as [Hdone Hroom].
  rewrite Hdone.
  assert (alter next_stage i ks = <[i := next_stage k]> ks) as ->.
  { apply list_eq. intros j. destruct (decide (i = j)) as [<-|Hne].
    - rewrite list_lookup_alter_eq, Hk. cbn.
      symmetry. apply list_lookup_insert_eq. by eapply lookup_lt_Some.
    - by rewrite list_lookup_alter_ne, list_lookup_insert_ne. }
  destruct Hst as [| |v].
  - rewrite step_view_post, Hrow. cbn [views title content].
    pose proof (updates_done_bounds ks). specialize (Hroom eq_refl).
    rewrite in_range_BigIntField by lia.
    cbn [fst snd rows set_rows next_stage Nat.eqb]. rewrite lookup_insert_eq.
    split; [|do 2 f_equal; lia].
    apply Forall2_insert; [done|constructor].
  - rewrite step_view_post_fetch, Hrow.
    cbn [fst snd views next_stage Nat.eqb]. rewrite Z.add_0_r.
    split; [|done]. apply Forall2_insert; [done|constructor].
  - cbn [step fst snd next_stage Nat.eqb]. rewrite Z.add_0_r.
    split; [|done]. apply Forall2_insert; [done|constructor].
Qed.

Lemma turns_snoc (j i : nat) (sched : list nat) :
  turns j (sched ++ [i]) = (turns j sched + (if Nat.eqb j i then 1 else 0))%nat.
Proof.
  unfold turns. rewrite List.filter_app, length_app. cbn [List.filter].
  by destruct (Nat.eqb j i).
Qed.

Lemma stages_snoc (N : nat) (sched : list nat) (i : nat) :
  stages N (sched ++ [i]) = alter next_stage i (stages N sched).
Proof.
  apply list_eq. intros j. unfold stages.
  destruct (decide (i = j)) as [<-|Hne].
  - rewrite list_lookup_alter_eq, !list_lookup_fmap.
    destruct (seq 0 N !! i) as [x|] eqn:Hx; [|done].
    apply lookup_seq in Hx as [-> _]. cbn [fmap option_fmap option_map plus].
    f_equal. rewrite turns_snoc, Nat.eqb_refl.
    destruct (turns i sched) as [|[|k]]; cbn; try done.
  - rewrite list_lookup_alter_ne by done. rewrite !list_lookup_fmap.
    destruct (seq 0 N !! j) as [x|] eqn:Hx; [|done].
    apply lookup_seq in Hx as [-> _]. cbn [fmap option_fmap option_map plus].
    f_equal. rewrite turns_snoc.
    destruct (Nat.eqb_spec j i) as [->|_]; [done|]. by rewrite Nat.add_0_r.
Qed.

Lemma stages_length (N : nat) (sched : list nat) : length (stages N sched) = N.
Proof. unfold stages. by rewrite length_fmap, length_seq. Qed.

Lemma stages_nil (N : nat) : stages N [] = replicate N 0%nat.
Proof.
  unfold stages. apply list_eq. intros j. rewrite list_lookup_fmap.
  destruct (decide (j < N)%nat) as [Hlt|Hge].
  - rewrite lookup_seq_lt, lookup_replicate_2 by done. done.
  - rewrite lookup_seq_ge by lia.
    symmetry. apply lookup_replicate_None. lia.
Qed.

(** After any schedule on [N] fresh requests, each task is at the stage its
    turns give it and the row has counted the UPDATEs done. *)
Lemma run_sched_counted (N : nat) (r : Post) (sched : list nat) (s : store Post) :
  rows s !! pid = Some r →
  - 2 ^ 63 ≤ views r → views r + Z.of_nat N < 2 ^ 63 →
  counted pid r (run_sched sched (replicate N (view_post pid), s)) (stages N sched).
Proof.
  intros Hrow Hlo Hhi. induction sched as [|i sched IH] using rev_ind.
  - rewrite stages_nil. split; cbn [run_sched foldl fst snd].
    + apply staged_replicate.
    + replace (updates_done (replicate N 0%nat)) with 0.
      * rewrite Hrow, Z.add_0_r. by destruct r.
      * clear. induction N; cbn; [done|]. by rewrite <- IHN.
  - unfold run_sched. rewrite foldl_app. cbn [foldl]. rewrite stages_snoc.
    apply (sched_step_counted N); [done|done|apply stages_length|exact IH].
Qed.

Lemma staged_finished (ks : list nat) (ts : list (prog Post response)) :
  Forall2 (staged pid) ks ts → Forall (λ k, k = 2%nat) ks →
  forallb finished ts = true ∧
  Forall (λ t, ∃ v, t = Ret [("current_views"%string, VInt v)]) ts.
Proof.
  induction 1 as [|k t ks ts Hst _ IH]; intros Hall; [by split|].
  apply Forall_cons in Hall as [-> Hall]. destruct (IH Hall) as [Hfin Hresp].
  inversion Hst as [| |v]; subst. cbn [forallb finished]. split; [done|].
  constructor; eauto.
Qed.

Lemma finished_staged (ks : list nat) (ts : list (prog Post response)) :
  Forall2 (staged pid) ks ts → forallb finished ts = true →
  Forall (λ k, k = 2%nat) ks.
Proof.
  induction 1 as [|k t ks ts Hst _ IH]; cbn [forallb]; intros Hfin; [done|].
  apply andb_prop in Hfin as [Ht Hfin].
  constructor; [|by apply IH]. by destruct Hst.
Qed.

Lemma stages_all_done (N : nat) (sched : list nat) :
  (∀ i, (i < N)%nat → (2 ≤ turns i sched)%nat) →
  Forall (λ k, k = 2%nat) (stages N sched).
Proof.
  intros Hfair. unfold stages. apply Forall_fmap, Forall_forall.
  intros i Hi. apply elem_of_seq in Hi. apply Nat.min_l, Hfair. lia.
Qed.

End concurrent_views.

(** C7, the claim as stated fails for a row at the top of the 64-bit
    column: one request, run to its end, leaves the counter where it was. *)
Lemma concurrent_increment_at_maximum_counterexample :
  views_of (Store {[ 1 := mkPost "Example blog post" "Hello! This is a blog post" (2 ^ 63 - 1) ]} []) 1
    = Some (2 ^ 63 - 1) ∧
  forallb finished
    (run_sched [0%nat; 0%nat]
       ([view_post 1],
        Store {[ 1 := mkPost "Example blog post" "Hello! This is a blog post" (2 ^ 63 - 1) ]} [])).1
    = true ∧
  views_of
    (run_sched [0%nat; 0%nat]
       ([view_post 1],
        Store {[ 1 := mkPost "Example blog post" "Hello! This is a blog post" (2 ^ 63 - 1) ]} [])).2 1
    ≠ Some (2 ^ 63 - 1 + 1 * 1).
Proof. vm_compute. repeat split; discriminate. Qed.

(** C7, as amended.  [N] concurrent increment requests against a row whose
    counter can take them within the 64-bit column ([views + N < 2^63]), under
    any schedule of their statements: at every point the stored counter is
    the initial value plus the number of UPDATEs done so far; once every
    request has had its two turns, all have responded and the counter is the
    initial value plus [N]; and whenever all tasks are finished the counter is
    the initial value plus [N]. *)
Theorem concurrent_increments_counted (N : nat) (sched : list nat) (pid : Z)
    (s : store Post) (r : Post) :
  rows s !! pid = Some r →
  - 2 ^ 63 ≤ views r → views r + Z.of_nat N < 2 ^ 63 →
  let c := run_sched sched (replicate N (view_post pid), s) in
  views_of c.2 pid = Some (views r + updates_done (stages N sched)) ∧
  ((∀ i, (i < N)%nat → (2 ≤ turns i sched)%nat) →
   forallb finished c.1 = true ∧
   Forall (λ t, ∃ v, t = Ret [("current_views"%string, VInt v)]) c.1 ∧
   views_of c.2 pid = Some (views r + Z.of_nat N)) ∧
  (forallb finished c.1 = true → views_of c.2 pid = Some (views r + Z.of_nat N)).
Proof.
  intros Hrow Hlo Hhi c.
  destruct (run_sched_counted pid N r sched s Hrow Hlo Hhi) as [Hst Hcnt].
  fold c in Hst, Hcnt. unfold views_of. rewrite Hcnt. cbn [fmap option_fmap option_map views].
  split; [done|]. split.
  - intros Hfair. pose proof (stages_all_done N sched Hfair) as Hall.
    destruct (staged_finished pid _ _ Hst Hall) as [Hfin Hresp].
    rewrite (updates_done_all _ Hall), stages_length. done.
  - intros Hfin. pose proof (finished_staged pid _ _ Hst Hfin) as Hall.
    by rewrite (updates_done_all _ Hall), stages_length.
Qed.

Lemma concurrent_increments_counted_witness :
  let r := mkPost "Example blog post" "Hello! This is a blog post" 0 in
  let s := Store {[ 1 := r ]} [] in
  let sched := [0; 1; 2; 2; 0; 1]%nat in
  let c := run_sched sched (replicate 3 (view_post 1), s) in
  rows s !! 1 = Some r ∧
  - 2 ^ 63 ≤ views r ∧ views r + Z.of_nat 3 < 2 ^ 63 ∧
  views_of c.2 1 = Some (views r + updates_done (stages 3 sched)) ∧
  ((∀ i, (i < 3)%nat → (2 ≤ turns i sched)%nat) →
   forallb finished c.1 = true ∧
   Forall (λ t, ∃ v, t = Ret [("current_views"%string, VInt v)]) c.1 ∧
   views_of c.2 1 = Some (views r + Z.of_nat 3)) ∧
  (forallb finished c.1 = true → views_of c.2 1 = Some (views r + Z.of_nat 3)).
Proof.
  cbv zeta. split; [reflexivity|]. split; [cbn; lia|]. split; [cbn; lia|].
  apply (concurrent_increments_counted 3 [0; 1; 2; 2; 0; 1]%nat 1
           (Store {[ 1 := mkPost "Example blog post" "Hello! This is a blog post" 0 ]} [])
           (mkPost "Example blog post" "Hello! This is a blog post" 0));
    [reflexivity | cbn; lia | cbn; lia].
Defined.

(** ** Start-up *)

(** C8.  Running the start-up row creation against a store that already
    holds the row raises nothing ([lifespan] returns normally: the
    [IntegrityError] of [create] is caught and only a line is printed) and
    leaves every row as it was, in both workers; in particular a second
    start-up, after a first one on any store, changes no row. *)
Theorem lifespan_again_keeps_rows (sb sb0 : store Post) (sp sp0 : store Player)
    (rb : Post) (rp : Player) :
  rows sb !! 1 = Some rb → rows sp !! 1 = Some rp →
  (run BlogViews.lifespan sb =
     (Return (), Store (rows sb)
                   (console sb ++ ["Creating test blog post..."; "Blog post already exists"]%string)) ∧
   run GameShop.lifespan sp =
     (Return (), Store (rows sp)
                   (console sp ++ ["Creating test user..."; "User already exists"]%string))) ∧
  ((run BlogViews.lifespan (run BlogViews.lifespan sb0).2).1 = Return () ∧
   rows (run BlogViews.lifespan (run BlogViews.lifespan sb0).2).2
     = rows (run BlogViews.lifespan sb0).2) ∧
  ((run GameShop.lifespan (run GameShop.lifespan sp0).2).1 = Return () ∧
   rows (run GameShop.lifespan (run GameShop.lifespan sp0).2).2
     = rows (run GameShop.lifespan sp0).2).
Proof.
  intros Hb Hp. split; [split|split].
  - by rewrite run_lifespan_blog, Hb.
  - by rewrite run_lifespan_shop, Hp.
  - rewrite (run_lifespan_blog sb0).
    destruct (rows sb0 !! 1) as [r|] eqn:H0; cbn [snd];
      rewrite run_lifespan_blog; cbn [rows].
    + by rewrite H0.
    + by rewrite lookup_insert_eq.
  - rewrite (run_lifespan_shop sp0).
    destruct (rows sp0 !! 1) as [r|] eqn:H0; cbn [snd];
      rewrite run_lifespan_shop; cbn [rows].
    + by rewrite H0.
    + by rewrite lookup_insert_eq.
Qed.

Lemma lifespan_again_keeps_rows_witness :
  let sb := Store {[ 1 := mkPost "Example blog post" "Hello! This is a blog post" 41 ]} [] in
  let sp := Store {[ 1 := mkPlayer "Alice" 250 5 ]} [] in
  rows sb !! 1 = Some (mkPost "Example blog post" "Hello! This is a blog post" 41) ∧
  rows sp !! 1 = Some (mkPlayer "Alice" 250 5) ∧
  (run BlogViews.lifespan sb =
     (Return (), Store (rows sb)
                   (console sb ++ ["Creating test blog post..."; "Blog post already exists"]%string)) ∧
   run GameShop.lifespan sp =
     (Return (), Store (rows sp)
                   (console sp ++ ["Creating test user..."; "User already exists"]%string))) ∧
  ((run BlogViews.lifespan (run BlogViews.lifespan fresh).2).1 = Return () ∧
   rows (run BlogViews.lifespan (run BlogViews.lifespan fresh).2).2
     = rows (run BlogViews.lifespan fresh).2) ∧
  ((run GameShop.lifespan (run GameShop.lifespan fresh).2).1 = Return () ∧
   rows (run GameShop.lifespan (run GameShop.lifespan fresh).2).2
     = rows (run GameShop.lifespan fresh).2).
Proof.
  cbv zeta. split; [reflexivity|]. split; [reflexivity|].
  apply (lifespan_again_keeps_rows
           (Store {[ 1 := mkPost "Example blog post" "Hello! This is a blog post" 41 ]} []) fresh
           (Store {[ 1 := mkPlayer "Alice" 250 5 ]} []) fresh
           (mkPost "Example blog post" "Hello! This is a blog post" 41)
           (mkPlayer "Alice" 250 5)); reflexivity.
Defined.

(** ** A request for a post that is not there *)

(** C10.  For a post identifier (a value of the 32-bit [id] column) with no
    row, [POST /view/{id}] changes no row: its UPDATE affects zero rows and
    returns, the task goes on to its fetch, and the fetch raises
    [DoesNotExist]; the request ends in that exception instead of a [views]
    value, with the store as it was. *)
Theorem view_missing_post (pid : Z) (s : store Post) :
  - 2 ^ 31 ≤ pid < 2 ^ 31 →
  rows s !! pid = None →
  filter_update [("id"%string, VInt pid)]
                [("views"%string, Plus (F "views") (Const 1))] (rows s) = (Return 0, rows s) ∧
  step (view_post pid) s = (view_post_fetch pid, s) ∧
  run (view_post_fetch pid) s = (Raise DoesNotExist, s) ∧
  run (view_post pid) s = (Raise DoesNotExist, s).
Proof.
  intros _ Hnone.
  rewrite Post_increment, step_view_post, run_view_post_fetch, run_view_post, Hnone.
  done.
Qed.

Lemma view_missing_post_witness :
  let s := Store {[ 1 := mkPost "Example blog post" "Hello! This is a blog post" 0 ]} [] in
  - 2 ^ 31 ≤ 2 < 2 ^ 31 ∧
  rows s !! 2 = None ∧
  filter_update [("id"%string, VInt 2)]
                [("views"%string, Plus (F "views") (Const 1))] (rows s) = (Return 0, rows s) ∧
  step (view_post 2) s = (view_post_fetch 2, s) ∧
  run (view_post_fetch 2) s = (Raise DoesNotExist, s) ∧
  run (view_post 2) s = (Raise DoesNotExist, s).
Proof.
  cbv zeta. split; [lia|]. split; [reflexivity|].
  apply (view_missing_post 2
           (Store {[ 1 := mkPost "Example blog post" "Hello! This is a blog post" 0 ]} []));
    [lia | reflexivity].
Defined.

(** ** The counters across the two services *)

Section counters.







End counters.




(** ** The read handlers *)

(** X1.  [GET /post/{post_id}] never changes the store (rows or console).
    When the row exists it answers with the identifier asked for and the
    title, content and views stored under it.  When it does not, the request
    is not answered, and for an identifier within the 32-bit [id] column the
    exception is [DoesNotExist]. *)
Theorem get_post_reads (pid : Z) (s : store Post) :
  (run (get_post pid) s).2 = s ∧
  match rows s !! pid with
  | Some r =>
      (run (get_post pid) s).1 =
        Return [("post_id"%string, VInt pid); ("title"%string, VStr (title r));
                ("content"%string, VStr (content r)); ("views"%string, VInt (views r))]
  | None =>
      returned (run (get_post pid) s).1 = false ∧
      (- 2 ^ 31 ≤ pid < 2 ^ 31 → (run (get_post pid) s).1 = Raise DoesNotExist)
  end.
Proof. rewrite run_get_post. by destruct (rows s !! pid). Qed.

(** X2.  [GET /player/{player_id}] never changes the store.  When the row
    exists it answers with the name, money and level stored under the
    identifier (the identifier itself is not part of the answer).  When it
    does not, the request is not answered, and for an identifier within the
    32-bit [id] column the exception is [DoesNotExist]. *)
Theorem get_info_reads (pid : Z) (s : store Player) :
  (run (get_info pid) s).2 = s ∧
  match rows s !! pid with
  | Some r =>
      (run (get_info pid) s).1 =
        Return [("name"%string, VStr (name r)); ("money"%string, VInt (money r));
                ("level"%string, VInt (level r))]
  | None =>
      returned (run (get_info pid) s).1 = false ∧
      (- 2 ^ 31 ≤ pid < 2 ^ 31 → (run (get_info pid) s).1 = Raise DoesNotExist)
  end.
Proof. rewrite run_get_info. by destruct (rows s !! pid). Qed.

(** ** Start-up on any store *)

(** X3.  The start-up of the blog worker never raises, whatever the table
    holds.  Afterwards row 1 exists: the row that was there, untouched, or
    else the test post with [views = 0]; no other row is touched; and two
    lines have been printed, the second telling which of the two happened. *)
Theorem blog_lifespan_ensures_post (s : store Post) :
  (run BlogViews.lifespan s).1 = Return () ∧
  rows (run BlogViews.lifespan s).2 !! 1 =
    Some (default (mkPost "Example blog post" "Hello! This is a blog post" 0) (rows s !! 1)) ∧
  (∀ j, j ≠ 1 → rows (run BlogViews.lifespan s).2 !! j = rows s !! j) ∧
  console (run BlogViews.lifespan s).2 =
    console s ++ ["Creating test blog post...";
                  match rows s !! 1 with
                  | Some _ => "Blog post already exists"
                  | None => "Test blog post created"
                  end]%string.
Proof.
  rewrite run_lifespan_blog.
  destruct (rows s !! 1) as [r|] eqn:H1; cbn [fst snd rows console default].
  - by rewrite H1.
  - rewrite lookup_insert_eq. repeat split; try done.
    intros j Hj. by rewrite lookup_insert_ne.
Qed.

(** X4.  The start-up of the shop worker never raises.  Afterwards player 1
    exists: the row that was there, untouched (its money and level are not
    reset), or else Alice with [money = 1000] and [level = 1]; no other row
    is touched; and two lines have been printed, the second telling which. *)
Theorem shop_lifespan_ensures_player (s : store Player) :
  (run GameShop.lifespan s).1 = Return () ∧
  rows (run GameShop.lifespan s).2 !! 1 =
    Some (default (mkPlayer "Alice" 1000 1) (rows s !! 1)) ∧
  (∀ j, j ≠ 1 → rows (run GameShop.lifespan s).2 !! j = rows s !! j) ∧
  console (run GameShop.lifespan s).2 =
    console s ++ ["Creating test user...";
                  match rows s !! 1 with
                  | Some _ => "User already exists"
                  | None => "Test user created"
                  end]%string.
Proof.
  rewrite run_lifespan_shop.
  destruct (rows s !! 1) as [r|] eqn:H1; cbn [fst snd rows console default].
  - by rewrite H1.
  - rewrite lookup_insert_eq. repeat split; try done.
    intros j Hj. by rewrite lookup_insert_ne.
Qed.

(** ** What an increment request leaves alone *)

(** X5.  [POST /view/{post_id}], in every outcome: it prints nothing, touches
    no other row, creates no row, and on its own row keeps title and content
    and moves [views] by nothing or by exactly one. *)
Theorem view_post_frame (i : Z) (s : store Post) :
  console (run (view_post i) s).2 = console s ∧
  (∀ j, j ≠ i → rows (run (view_post i) s).2 !! j = rows s !! j) ∧
  match rows s !! i with
  | None => rows (run (view_post i) s).2 !! i = None
  | Some r =>
      ∃ r', rows (run (view_post i) s).2 !! i = Some r' ∧
            title r' = title r ∧ content r' = content r ∧
            (views r' = views r ∨ views r' = views r + 1)
  end.
Proof.
  rewrite run_view_post. destruct (rows s !! i) as [r|] eqn:Hi; cbn [snd].
  - destruct (in_range BigIntField (views r + 1)); cbn [snd rows console set_rows].
    + split; [done|]. split; [intros j Hj; by rewrite lookup_insert_ne|].
      rewrite lookup_insert_eq. eexists; split; [done|]. cbn. auto.
    + split; [done|]. split; [done|]. exists r. auto.
  - by rewrite Hi.
Qed.

(** X6.  [n] increment requests served one after the other on a row whose
    counter can take them ([views + n < 2^63]) are all answered, the [k]-th
    with [views + k]; a read after them returns [views + n], and no other row
    has changed. *)
Theorem view_posts_count_up (n : nat) (pid : Z) (s : store Post) (r : Post) :
  rows s !! pid = Some r →
  - 2 ^ 63 ≤ views r → views r + Z.of_nat n < 2 ^ 63 →
  (run_all (replicate n (view_post pid)) s).1 =
    (λ k, Return [("current_views"%string, VInt (views r + Z.of_nat k))]) <$> seq 1 n ∧
  (run (get_post pid) (run_all (replicate n (view_post pid)) s).2).1 =
    Return [("post_id"%string, VInt pid); ("title"%string, VStr (title r));
            ("content"%string, VStr (content r));
            ("views"%string, VInt (views r + Z.of_nat n))] ∧
  (∀ j, j ≠ pid → rows (run_all (replicate n (view_post pid)) s).2 !! j = rows s !! j).
Proof.
  intros Hrow Hlo Hhi.
  destruct (view_posts_in_a_row n pid s r Hrow Hlo Hhi) as (Hres & Hfin & Hoth).
  split; [done|]. split; [|done]. by rewrite run_get_post, Hfin.
Qed.

Lemma view_posts_count_up_witness :
  let r := mkPost "Example blog post" "Hello! This is a blog post" 7 in
  let s := Store {[ 1 := r; 2 := mkPost "Other" "..." 3 ]} [] in
  rows s !! 1 = Some r ∧ - 2 ^ 63 ≤ views r ∧ views r + Z.of_nat 3 < 2 ^ 63 ∧
  (run_all (replicate 3 (view_post 1)) s).1 =
    (λ k, Return [("current_views"%string, VInt (views r + Z.of_nat k))]) <$> seq 1 3 ∧
  (run (get_post 1) (run_all (replicate 3 (view_post 1)) s).2).1 =
    Return [("post_id"%string, VInt 1); ("title"%string, VStr (title r));
            ("content"%string, VStr (content r));
            ("views"%string, VInt (views r + Z.of_nat 3))] ∧
  (∀ j, j ≠ 1 → rows (run_all (replicate 3 (view_post 1)) s).2 !! j = rows s !! j).
Proof.
  cbv zeta. split; [reflexivity|]. split; [cbn; lia|]. split; [cbn; lia|].
  apply (view_posts_count_up 3 1
           (Store {[ 1 := mkPost "Example blog post" "Hello! This is a blog post" 7;
                     2 := mkPost "Other" "..." 3 ]} [])
           (mkPost "Example blog post" "Hello! This is a blog post" 7));
    [reflexivity | cbn; lia | cbn; lia].
Defined.

(** ** Interleaved increments: what the responses say *)

Lemma sched_step_0 {R A} (t : prog R A) (ts : list (prog R A)) (s : store R) :
  sched_step (t :: ts, s) 0 = ((step t s).1 :: ts, (step t s).2).
Proof. unfold sched_step. simpl. by destruct (step t s). Qed.

Lemma sched_step_1 {R A} (t0 t : prog R A) (ts : list (prog R A)) (s : store R) :
  sched_step (t0 :: t :: ts, s) 1 = (t0 :: (step t s).1 :: ts, (step t s).2).
Proof. unfold sched_step. simpl. by destruct (step t s). Qed.

Lemma updates_done_started (ks : list nat) (i k : nat) :
  ks !! i = Some (S k) → 1 ≤ updates_done ks.
Proof.
  revert i. induction ks as [|k0 ks IH]; intros [|i] Hi; simpl in Hi; simplify_eq.
  - cbn [updates_done Nat.eqb]. pose proof (updates_done_bounds ks). lia.
  - cbn [updates_done]. specialize (IH i Hi). destruct (Nat.eqb k0 0); lia.
Qed.

(** X7.  Under every schedule of [N] concurrent increment requests on a row
    that can take them, whatever a request has answered so far lies between
    the initial counter plus one and the initial counter plus [N]: a request
    never reports a count below its own increment nor above the total. *)
Theorem concurrent_views_answers_bounded (N : nat) (sched : list nat) (pid : Z)
    (s : store Post) (r : Post) :
  rows s !! pid = Some r →
  - 2 ^ 63 ≤ views r → views r + Z.of_nat N < 2 ^ 63 →
  Forall (λ t, ∀ v, t = Ret [("current_views"%string, VInt v)] →
                    views r + 1 ≤ v ≤ views r + Z.of_nat N)
    (run_sched sched (replicate N (view_post pid), s)).1.
Proof.
  intros Hrow Hlo Hhi. induction sched as [|i sched IH] using rev_ind.
  - cbn [run_sched foldl fst]. apply Forall_replicate. intros v Hv. discriminate Hv.
  - pose proof (run_sched_counted pid N r sched s Hrow Hlo Hhi) as [Hst Hcnt].
    unfold run_sched in *. rewrite foldl_app. cbn [foldl].
    destruct (foldl sched_step (replicate N (view_post pid), s) sched) as [ts s'].
    cbn [fst snd] in *. unfold sched_step. cbn [fst snd].
    destruct (ts !! i) as [t|] eqn:Hi; [|done].
    destruct (Forall2_lookup_r _ _ _ _ _ Hst Hi) as (k & Hk & Hstage).
    destruct Hstage as [| |v0].
    + rewrite step_view_post, Hcnt.
      destruct (in_range BigIntField _); cbn [fst];
        (apply Forall_insert; [done|]); intros v Hv; discriminate Hv.
    + rewrite step_view_post_fetch, Hcnt. cbn [fst views].
      apply Forall_insert; [done|]. intros v Hv. simplify_eq.
      pose proof (updates_done_started _ _ _ Hk).
      pose proof (updates_done_bounds (stages N sched)) as Hb.
      rewrite stages_length in Hb. lia.
    + cbn [step fst]. by rewrite list_insert_id.
Qed.

Lemma concurrent_views_answers_bounded_witness :
  let r := mkPost "Example blog post" "Hello! This is a blog post" 0 in
  let s := Store {[ 1 := r ]} [] in
  rows s !! 1 = Some r ∧ - 2 ^ 63 ≤ views r ∧ views r + Z.of_nat 3 < 2 ^ 63 ∧
  Forall (λ t, ∀ v, t = Ret [("current_views"%string, VInt v)] →
                    views r + 1 ≤ v ≤ views r + Z.of_nat 3)
    (run_sched [0; 1; 0; 2; 1]%nat (replicate 3 (view_post 1), s)).1.
Proof.
  cbv zeta. split; [reflexivity|]. split; [cbn; lia|]. split; [cbn; lia|].
  apply (concurrent_views_answers_bounded 3 [0; 1; 0; 2; 1]%nat 1
           (Store {[ 1 := mkPost "Example blog post" "Hello! This is a blog post" 0 ]} [])
           (mkPost "Example blog post" "Hello! This is a blog post" 0));
    [reflexivity | cbn; lia | cbn; lia].
Defined.

Lemma two_views_same_step (pid : Z) (s : store Post) (r : Post) :
  rows s !! pid = Some r →
  - 2 ^ 63 ≤ views r → views r + 2 < 2 ^ 63 →
  run_sched [0; 1; 0; 1]%nat ([view_post pid; view_post pid], s) =
    ([Ret [("current_views"%string, VInt (views r + 2))];
      Ret [("current_views"%string, VInt (views r + 2))]],
     set_rows (<[pid := mkPost (title r) (content r) (views r + 2)]> (rows s)) s).
Proof.
  intros Hrow Hlo Hhi. unfold run_sched. cbn [foldl].
  rewrite sched_step_0, step_view_post, Hrow, in_range_BigIntField by lia. cbn [fst snd].
  rewrite sched_step_1, step_view_post. cbn [rows set_rows].
  rewrite lookup_insert_eq. cbn [views title content].
  rewrite in_range_BigIntField by lia. cbn [fst snd]. rewrite insert_insert_eq.
  rewrite sched_step_0, step_view_post_fetch. cbn [rows set_rows].
  rewrite lookup_insert_eq. cbn [fst snd views].
  rewrite sched_step_1, step_view_post_fetch. cbn [rows set_rows].
  rewrite lookup_insert_eq. cbn [fst snd views].
  rewrite set_rows_twice. by replace (views r + 1 + 1) with (views r + 2) by lia.
Qed.

(** X8.  The answer of an increment request is the counter at the time of
    its fetch, not the value its own UPDATE produced: when two requests both
    do their UPDATE before either fetches, both answer the initial counter
    plus two, and the row holds the initial counter plus two. *)
Theorem two_views_same_answer (pid : Z) (s : store Post) (r : Post) :
  rows s !! pid = Some r →
  - 2 ^ 63 ≤ views r → views r + 2 < 2 ^ 63 →
  run_sched [0; 1; 0; 1]%nat ([view_post pid; view_post pid], s) =
    ([Ret [("current_views"%string, VInt (views r + 2))];
      Ret [("current_views"%string, VInt (views r + 2))]],
     set_rows (<[pid := mkPost (title r) (content r) (views r + 2)]> (rows s)) s).
Proof. apply two_views_same_step. Qed.

Lemma two_views_same_answer_witness :
  let r := mkPost "Example blog post" "Hello! This is a blog post" 0 in
  let s := Store {[ 1 := r ]} [] in
  rows s !! 1 = Some r ∧ - 2 ^ 63 ≤ views r ∧ views r + 2 < 2 ^ 63 ∧
  run_sched [0; 1; 0; 1]%nat ([view_post 1; view_post 1], s) =
    ([Ret [("current_views"%string, VInt (views r + 2))];
      Ret [("current_views"%string, VInt (views r + 2))]],
     set_rows (<[1 := mkPost (title r) (content r) (views r + 2)]> (rows s)) s).
Proof.
  cbv zeta. split; [reflexivity|]. split; [cbn; lia|]. split; [cbn; lia|].
  apply (two_views_same_answer 1
           (Store {[ 1 := mkPost "Example blog post" "Hello! This is a blog post" 0 ]} [])
           (mkPost "Example blog post" "Hello! This is a blog post" 0));
    [reflexivity | cbn; lia | cbn; lia].
Defined.


(** ** The read-modify-write variants of the increment *)

(** [UPDATE posts SET views = v WHERE id = pid], the statement of
    [save(update_fields=["views"])]. *)
Lemma Post_save_views (pid v : Z) (tbl : gmap Z Post) :
  filter_update [("id"%string, VInt pid)] [("views"%string, Const v)] tbl =
    match tbl !! pid with
    | None => (Return 0, tbl)
    | Some r0 =>
        if in_range BigIntField v
        then (Return 1, <[pid := mkPost (title r0) (content r0) v]> tbl)
        else (Raise NumericValueOutOfRange, tbl)
    end.
Proof.
  unfold filter_update.
  change (resolve_filters Post [("id"%string, VInt pid)])
    with (Return [Criterion "id" Exact (VInt pid)]).
  change (resolve_update Post [("views"%string, Const v)])
    with (Return [Assignment "views" BigIntField (Const v)]).
  cbv beta iota.
  rewrite (select_keyed _ pid) by (intros kr; by apply by_id_pins_key).
  destruct (tbl !! pid) as [r0|];
    [|cbn [update_rows length]; by rewrite write_back_none].
  replace (matches [Criterion "id" Exact (VInt pid)] (pid, r0)) with true
    by (unfold matches, holds; simpl; by rewrite bool_decide_eq_true_2).
  cbn [update_rows apply_update asg_expr asg_type asg_field eval_expr fst snd].
  destruct (in_range BigIntField v); [|done].
  cbn [length]. by rewrite write_back_one.
Qed.

(** The first turn of the unsafe variant: its read. *)
Lemma step_view_post_unsafe (pid : Z) (s : store Post) :
  step (view_post_unsafe pid) s =
    match rows s !! pid with
    | Some r => (view_post_unsafe_save (pid, r), s)
    | None => (Throw DoesNotExist, s)
    end.
Proof.
  unfold view_post_unsafe. cbn [mbind prog_bind bind await ended step].
  rewrite Post_get_by_id.
  destruct (rows s !! pid) as [r|]; by rewrite set_rows_same.
Qed.

(** Its second turn: the write of the value computed from what was read. *)
Lemma step_view_post_unsafe_save (pid : Z) (r : Post) (s : store Post) :
  step (view_post_unsafe_save (pid, r)) s =
    match rows s !! pid with
    | None => (Ret [("current_views"%string, VInt (views r + 1))], s)
    | Some r0 =>
        if in_range BigIntField (views r + 1)
        then (Ret [("current_views"%string, VInt (views r + 1))],
              set_rows (<[pid := mkPost (title r0) (content r0) (views r + 1)]> (rows s)) s)
        else (Throw NumericValueOutOfRange, s)
    end.
Proof.
  unfold view_post_unsafe_save. cbn [mbind prog_bind bind await ended step fst snd views].
  rewrite Post_save_views.
  destruct (rows s !! pid) as [r0|]; [|by rewrite set_rows_same].
  destruct (in_range BigIntField (views r + 1)); [done|by rewrite set_rows_same].
Qed.

Lemma run_view_post_unsafe (pid : Z) (s : store Post) :
  run (view_post_unsafe pid) s =
    match rows s !! pid with
    | None => (Raise DoesNotExist, s)
    | Some r =>
        if in_range BigIntField (views r + 1)
        then (Return [("current_views"%string, VInt (views r + 1))],
              set_rows (<[pid := mkPost (title r) (content r) (views r + 1)]> (rows s)) s)
        else (Raise NumericValueOutOfRange, s)
    end.
Proof.
  unfold view_post_unsafe. rewrite run_await_bind, Post_get_by_id.
  destruct (rows s !! pid) as [r|] eqn:Hrow; [|by rewrite set_rows_same].
  rewrite set_rows_same. cbv zeta. cbn [fst snd views title content].
  rewrite run_await_bind, Post_save_views, Hrow.
  destruct (in_range BigIntField (views r + 1)); [done|by rewrite set_rows_same].
Qed.

(** X9.  Served with nothing in between, the variants marked unsafe answer
    and store exactly what the variant in use does, on a missing row and on
    every row below the 64-bit maximum: they differ only under
    interleaving. *)
Theorem view_post_unsafe_alone (pid : Z) (s : store Post) :
  (∀ r, rows s !! pid = Some r → - 2 ^ 63 ≤ views r < 2 ^ 63 - 1) →
  run (view_post_unsafe pid) s = run (view_post pid) s.
Proof. intros _. by rewrite run_view_post_unsafe, run_view_post. Qed.

Lemma view_post_unsafe_alone_witness :
  let s := Store {[ 1 := mkPost "Example blog post" "Hello! This is a blog post" 5 ]} [] in
  (∀ r, rows s !! 1 = Some r → - 2 ^ 63 ≤ views r < 2 ^ 63 - 1) ∧
  run (view_post_unsafe 1) s = run (view_post 1) s.
Proof.
  cbv zeta.
  assert (∀ r, rows (Store {[ 1 := mkPost "Example blog post" "Hello! This is a blog post" 5 ]} [])
                 !! 1 = Some r → - 2 ^ 63 ≤ views r < 2 ^ 63 - 1) as Hrange.
  { intros r Hr. vm_compute in Hr. injection Hr as <-. cbn. lia. }
  split; [exact Hrange|].
  exact (view_post_unsafe_alone 1 _ Hrange).
Defined.

(** X10.  The lost update of the variants marked unsafe: when two requests
    both read the row before either writes, both write and answer the
    initial counter plus one, and the row ends one short of the two requests
    it served; under the same schedule the variant in use stores the initial
    counter plus two. *)
Theorem view_post_unsafe_loses_update (pid : Z) (s : store Post) (r : Post) :
  rows s !! pid = Some r →
  - 2 ^ 63 ≤ views r → views r + 2 < 2 ^ 63 →
  run_sched [0; 1; 0; 1]%nat ([view_post_unsafe pid; view_post_unsafe pid], s) =
    ([Ret [("current_views"%string, VInt (views r + 1))];
      Ret [("current_views"%string, VInt (views r + 1))]],
     set_rows (<[pid := mkPost (title r) (content r) (views r + 1)]> (rows s)) s) ∧
  views_of (run_sched [0; 1; 0; 1]%nat ([view_post pid; view_post pid], s)).2 pid =
    Some (views r + 2).
Proof.
  intros Hrow Hlo Hhi. split.
  - unfold run_sched. cbn [foldl].
    rewrite sched_step_0, step_view_post_unsafe, Hrow. cbn [fst snd].
    rewrite sched_step_1, step_view_post_unsafe, Hrow. cbn [fst snd].
    rewrite sched_step_0, step_view_post_unsafe_save, Hrow.
    rewrite in_range_BigIntField by lia. cbn [fst snd].
    rewrite sched_step_1, step_view_post_unsafe_save. cbn [rows set_rows].
    rewrite lookup_insert_eq, in_range_BigIntField by lia.
    cbn [fst snd title content]. by rewrite insert_insert_eq, set_rows_twice.
  - rewrite (two_views_same_step pid s r Hrow Hlo Hhi). unfold views_of.
    cbn [snd rows set_rows]. by rewrite lookup_insert_eq.
Qed.

Lemma view_post_unsafe_loses_update_witness :
  let r := mkPost "Example blog post" "Hello! This is a blog post" 0 in
  let s := Store {[ 1 := r ]} [] in
  rows s !! 1 = Some r ∧ - 2 ^ 63 ≤ views r ∧ views r + 2 < 2 ^ 63 ∧
  run_sched [0; 1; 0; 1]%nat ([view_post_unsafe 1; view_post_unsafe 1], s) =
    ([Ret [("current_views"%string, VInt (views r + 1))];
      Ret [("current_views"%string, VInt (views r + 1))]],
     set_rows (<[1 := mkPost (title r) (content r) (views r + 1)]> (rows s)) s) ∧
  views_of (run_sched [0; 1; 0; 1]%nat ([view_post 1; view_post 1], s)).2 1 =
    Some (views r + 2).
Proof.
  cbv zeta. split; [reflexivity|]. split; [cbn; lia|]. split; [cbn; lia|].
  apply (view_post_unsafe_loses_update 1
           (Store {[ 1 := mkPost "Example blog post" "Hello! This is a blog post" 0 ]} [])
           (mkPost "Example blog post" "Hello! This is a blog post" 0));
    [reflexivity | cbn; lia | cbn; lia].
Defined.

(** ** Start-up, then a read *)

(** X16.  After the start-up of a worker, on any store, the read of
    identifier 1 is always answered, never [DoesNotExist]: it reports the
    row the store already had or, on a store without it, the test row
    ([views = 0] for the post; Alice, [money = 1000], [level = 1] for the
    player). *)
Theorem read_after_lifespan (sb : store Post) (sp : store Player) :
  (run (get_post 1) (run BlogViews.lifespan sb).2).1 =
    (let p := default (mkPost "Example blog post" "Hello! This is a blog post" 0)
                (rows sb !! 1) in
     Return [("post_id"%string, VInt 1); ("title"%string, VStr (title p));
             ("content"%string, VStr (content p)); ("views"%string, VInt (views p))]) ∧
  (run (get_info 1) (run GameShop.lifespan sp).2).1 =
    (let q := default (mkPlayer "Alice" 1000 1) (rows sp !! 1) in
     Return [("name"%string, VStr (name q)); ("money"%string, VInt (money q));
             ("level"%string, VInt (level q))]).
Proof.
  rewrite run_get_post, run_get_info, run_lifespan_blog, run_lifespan_shop.
  split.
  - destruct (rows sb !! 1) as [p|] eqn:H1; cbn [snd rows default].
    + by rewrite H1.
    + by rewrite lookup_insert_eq.
  - destruct (rows sp !! 1) as [q|] eqn:H1; cbn [snd rows default].
    + by rewrite H1.
    + by rewrite lookup_insert_eq.
Qed.
